(** * cli-utils: the apply engine, its task queue and its runner loop

    A shallow embedding of
    - [pkg/apply/applier.go]: [readAndPrepareObjects], [splitInfos],
      [buildTaskQueue], [infosToObjMetas], [validateNamespace] and
      [Applier.Run];
    - [pkg/apply/taskrunner/runner.go]: [baseRunner.run], [nextTask],
      [completeIfWaitTask] and [taskStatusRunner.Run];
    - the identifier text form exercised by [TestCreateObjMetadata] and
      [TestParseObjMetadata].

    Go values are modelled as follows: a [string] is a Rocq [string] (a
    sequence of bytes), a slice is a [list], a nilable [error] is an
    [option error], a [(T, error)] result is a [result T], a
    [time.Duration] is a [Z] (nanoseconds).  The runner's [select] loop is a
    transition function over the messages its three channels deliver. *)

From Stdlib Require Import ZArith Ascii String.
From stdpp Require Import gmap strings list.

Set Warnings "-register-all".
Local Open Scope Z_scope.

(** ** Go strings *)

Module GoStrings.

(** The runes of [unicode.IsSpace] in one byte of UTF-8: ['\t'], ['\n'],
    ['\v'], ['\f'], ['\r'] and [' ']. *)
Definition space1 (c : ascii) : bool :=
  let n := nat_of_ascii c in
  Nat.eqb n 32 || (Nat.leb 9 n && Nat.leb n 13).

(** In two bytes: U+0085 (C2 85) and U+00A0 (C2 A0). *)
Definition space2 (c1 c2 : ascii) : bool :=
  let n1 := nat_of_ascii c1 in
  let n2 := nat_of_ascii c2 in
  Nat.eqb n1 194 && (Nat.eqb n2 133 || Nat.eqb n2 160).

(** In three bytes: U+1680 (E1 9A 80), U+2000 to U+200A (E2 80 80 to
    E2 80 8A), U+2028, U+2029 and U+202F (E2 80 A8, A9 and AF), U+205F
    (E2 81 9F) and U+3000 (E3 80 80). *)
Definition space3 (c1 c2 c3 : ascii) : bool :=
  let n1 := nat_of_ascii c1 in
  let n2 := nat_of_ascii c2 in
  let n3 := nat_of_ascii c3 in
  (Nat.eqb n1 225 && Nat.eqb n2 154 && Nat.eqb n3 128)
  || (Nat.eqb n1 226 && Nat.eqb n2 128
      && ((Nat.leb 128 n3 && Nat.leb n3 138)
          || Nat.eqb n3 168 || Nat.eqb n3 169 || Nat.eqb n3 175))
  || (Nat.eqb n1 226 && Nat.eqb n2 129 && Nat.eqb n3 159)
  || (Nat.eqb n1 227 && Nat.eqb n2 128 && Nat.eqb n3 128).

Section Trim.
Variable sp1 : ascii -> bool.
Variable sp2 : ascii -> ascii -> bool.
Variable sp3 : ascii -> ascii -> ascii -> bool.

(** Do the bytes start with the encoding of a white space rune? *)
Definition startsSpace (l : list ascii) : bool :=
  match l with
  | [] => false
  | c1 :: l1 =>
      sp1 c1
      || match l1 with
         | [] => false
         | c2 :: l2 =>
             sp2 c1 c2
             || match l2 with
                | [] => false
                | c3 :: _ => sp3 c1 c2 c3
                end
         end
  end.

(** The bytes without the white space runes they start with. *)
Fixpoint trimLeftWith (l : list ascii) : list ascii :=
  match l with
  | [] => []
  | c1 :: l1 =>
      if sp1 c1 then trimLeftWith l1
      else
        match l1 with
        | [] => l
        | c2 :: l2 =>
            if sp2 c1 c2 then trimLeftWith l2
            else
              match l2 with
              | [] => l
              | c3 :: l3 => if sp3 c1 c2 c3 then trimLeftWith l3 else l
              end
        end
  end.

End Trim.

(** [strings.TrimLeftFunc(s, unicode.IsSpace)] on the bytes of [s]: the
    runes are decoded from the front. *)
Definition trimLeft (l : list ascii) : list ascii :=
  trimLeftWith space1 space2 space3 l.

(** [strings.TrimRightFunc(s, unicode.IsSpace)]: the runes are decoded
    from the back, so the encodings are read in reverse. *)
Definition trimRight (l : list ascii) : list ascii :=
  rev (trimLeftWith space1 (fun c2 c1 => space2 c1 c2)
         (fun c3 c2 c1 => space3 c1 c2 c3) (rev l)).

(** [strings.TrimSpace]: the string without the Unicode white space at
    its ends. *)
Definition TrimSpace (s : string) : string :=
  string_of_list_ascii (trimRight (trimLeft (list_ascii_of_string s))).

(** [strings.Split(s, sep)] for a separator of one byte: the result is
    never empty, [Split "" sep] is [[""]]. *)
Fixpoint Split (sep : ascii) (s : string) : list string :=
  match s with
  | EmptyString => [EmptyString]
  | String c s' =>
      if Ascii.eqb c sep then EmptyString :: Split sep s'
      else match Split sep s' with
           | p :: ps => String c p :: ps
           | [] => [String c EmptyString]
           end
  end.

(** Number of occurrences of the byte [sep]. *)
Fixpoint Count (sep : ascii) (s : string) : nat :=
  match s with
  | EmptyString => O
  | String c s' => if Ascii.eqb c sep then S (Count sep s') else Count sep s'
  end.

Definition TAB : ascii := ascii_of_nat 9.
Definition LF : ascii := ascii_of_nat 10.

(** The bytes of U+00A0, the no-break space. *)
Definition NBSP : string :=
  String (ascii_of_nat 194) (String (ascii_of_nat 160) EmptyString).

End GoStrings.

(** ** pkg/object: resource identifiers *)

Module Object.
Import GoStrings.

(** [schema.GroupKind]. *)
Record GroupKind := { Group : string; Kind : string }.

(** [schema.GroupKind.Empty]. *)
Definition GroupKind_Empty (gk : GroupKind) : bool :=
  (Nat.eqb (String.length (Group gk)) 0 && Nat.eqb (String.length (Kind gk)) 0)%bool.

(** [object.ObjMetadata]: the fields read and written by
    [infosToObjMetas] and by the tests of the text form. *)
Record ObjMetadata := {
  Namespace : string;
  Name : string;
  GK : GroupKind
}.

Definition fieldSeparator : ascii := "_"%char.

(** Modelled from the spec: [ObjMetadata.String] is not part of the
    sources (only its tests are).  "text form namespace_name_group_kind
    (empty namespace rendered as empty segment)". *)
Definition String_ (o : ObjMetadata) : string :=
  Namespace o +:+ String fieldSeparator
    (Name o +:+ String fieldSeparator
       (Group (GK o) +:+ String fieldSeparator (Kind (GK o)))).

(** Modelled from the spec: [createObjMetadata] is not part of the
    sources (only [TestCreateObjMetadata] and its call by the parser's
    rules are).  "reject when ... name or group-kind are empty after
    trim".  The namespace and the name are trimmed (first two cases of
    [TestCreateObjMetadata]), an empty name after trim and an empty
    group-kind are errors (its last two cases); the group-kind is kept
    as it is passed. *)
Definition createObjMetadata (namespace name : string) (gk : GroupKind)
  : option ObjMetadata :=
  let name := TrimSpace name in
  if String.eqb name EmptyString then None
  else if GroupKind_Empty gk then None
  else Some {| Namespace := TrimSpace namespace; Name := name; GK := gk |}.

(** Modelled from the spec: [parseObjMetadata] is not part of the
    sources.  "split on underscore into exactly four fields, trim
    surrounding whitespace from each field; reject when fewer than four
    fields or when name or group-kind are empty after trim". *)
Definition parseObjMetadata (inv : string) : option ObjMetadata :=
  match Split fieldSeparator inv with
  | [p0; p1; p2; p3] =>
      let gk := {| Group := TrimSpace p2; Kind := TrimSpace p3 |} in
      createObjMetadata p0 p1 gk
  | _ => None
  end.

End Object.

(** ** k8s.io/cli-runtime/pkg/resource and the errors of the engine *)

Module Resource.

(** [unstructured.Unstructured], as far as the engine reads it:
    [GroupVersionKind().GroupKind()], [GetName()], [GetNamespace()] and
    the labels that mark a grouping object. *)
Record Unstructured := {
  uGroupKind : Object.GroupKind;
  uName : string;
  uNamespace : string;
  uLabels : gmap string string
}.

(** [resource.Info].  Every [Object] is an [*unstructured.Unstructured]
    (the type assertion of [infosToObjMetas] succeeds); [Namespaced] is
    the result of [info.Namespaced()]. *)
Record Info := {
  Object : Unstructured;
  Namespace : string;
  Namespaced : bool
}.

(** [metav1.NamespaceNone]. *)
Definition NamespaceNone : string := EmptyString.

End Resource.

Module Errors.
Import Resource.

(** The [error] values that flow through the engine. *)
Inductive error :=
| NoGroupingObjError                       (* prune.NoGroupingObjError{} *)
| MultipleGroupingObjError (GroupingObjectTemplates : list Info)
| Errorf (message : string)                (* fmt.Errorf of a constant *)
| WrapPrefix (err : error) (prefix : string) (* errors.WrapPrefix(err, prefix, 1) *)
| PollingFailed (cause : option error)
    (* fmt.Errorf("polling for status failed: %v", statusEvent.Error) *)
| timeoutError (message : string)
| Canceled                                 (* context.Canceled *)
| DeadlineExceeded                         (* context.DeadlineExceeded *)
| Foreign (message : string).              (* an error of a collaborator *)

(** A Go result pair [(T, error)]. *)
Inductive result (A : Type) :=
| Ok (a : A)
| Err (err : error).
Global Arguments Ok {A} a.
Global Arguments Err {A} err.

(** [IsTimeoutError]. *)
Definition IsTimeoutError (err : error) : bool :=
  match err with
  | timeoutError _ => true
  | _ => false
  end.

End Errors.

(** ** pkg/kstatus: statuses and the observations of the poller *)

Module Kstatus.
Import Errors.

(** [status.Status]. *)
Inductive Status :=
| UnknownStatus | InProgressStatus | CurrentStatus
| FailedStatus | TerminatingStatus | NotFoundStatus.

Global Instance Status_eq_dec : EqDecision Status.
Proof. solve_decision. Defined.

(** [pollevent.EventType]. *)
Inductive EventType :=
| ResourceUpdateEvent | CompletedEvent | AbortedEvent | ErrorEvent.

Global Instance EventType_eq_dec : EqDecision EventType.
Proof. solve_decision. Defined.

(** [pollevent.ResourceStatus]. *)
Record ResourceStatus := {
  Identifier : Object.ObjMetadata;
  Status_ : Status
}.

(** [pollevent.Event].  [Resource] is a pointer, [nil] in the
    [CompletedEvent] that [buildTaskQueue] builds; [Error] is [nil]
    unless the event is an [ErrorEvent]. *)
Record Event := {
  EventType_ : EventType;
  Resource : option ResourceStatus;
  Error : option error
}.

End Kstatus.

(** ** pkg/apply/event: the events of the output stream *)

Module Event.
Import Resource Errors.

Inductive ApplyEventType := ApplyEventResourceUpdate | ApplyEventCompleted.
Inductive PruneEventType := PruneEventResourceUpdate | PruneEventCompleted.
Inductive ResourceAction := ApplyAction | PruneAction.

Record ResourceGroup := {
  Action : ResourceAction;
  Identifiers : list Object.ObjMetadata
}.

Record ApplyEvent := { ApplyType_ : ApplyEventType; ApplyObject : option Unstructured }.
Record PruneEvent := { PruneType_ : PruneEventType; PruneObject : option Unstructured }.

(** [event.Event]: the [Type] tag together with the one payload field
    that the tag selects. *)
Inductive Event :=
| ErrorType (Err : error)
| InitType (ResourceGroups : list ResourceGroup)
| ApplyType (ApplyEvent_ : ApplyEvent)
| StatusType (StatusEvent : Kstatus.Event)
| PruneType (PruneEvent_ : PruneEvent).

Definition isError (e : Event) : bool :=
  match e with ErrorType _ => true | _ => false end.

Definition isInit (e : Event) : bool :=
  match e with InitType _ => true | _ => false end.


(** The per-object and completion events of the apply phase. *)
Definition isApply (e : Event) : bool :=
  match e with ApplyType _ => true | _ => false end.

End Event.

(** ** pkg/apply/taskrunner: tasks, the status collector and the runner loop *)

Module Taskrunner.
Import Resource Errors.

(** [taskrunner.Condition]. *)
Inductive Condition := AllCurrent | AllNotFound.

(** The implementations of the [Task] interface that [buildTaskQueue]
    creates: [task.ApplyTask], [task.PruneTask], [task.SendEventTask]
    and [taskrunner.WaitTask].  The option structs and the event channel
    they point to are shared by the whole run and are not fields of the
    model. *)
Inductive Task :=
| ApplyTask (Objects : list Info)
| PruneTask (Objects : list Info)
| SendEventTask (Event_ : Event.Event)
| WaitTask (Identifiers : list Object.ObjMetadata) (Condition_ : Condition)
           (Timeout : Z).

(** Modelled from the spec: [NewWaitTask] is not part of the sources.
    "Wait: a set of identifiers, a Condition and a timeout." *)
Definition NewWaitTask (identifiers : list Object.ObjMetadata)
    (condition : Condition) (timeout : Z) : Task :=
  WaitTask identifiers condition timeout.

(** The type switch on [tsk] and the type assertion on [currentTask]:
    is the task a [WaitTask]? *)
Definition isWaitTask (t : Task) : bool :=
  match t with WaitTask _ _ _ => true | _ => false end.

(** [TaskResult]. *)
Record TaskResult := { Err_ : option error }.

(** What the loop does to the outside: the methods it calls on tasks, its
    sends on the event channel, and, for the callers of the loop, the
    shutdown of the poller and the close of the event channel. *)
Inductive Op :=
| Start (t : Task)                 (* tsk.Start(taskChannel) *)
| StartAndComplete (t : Task)      (* st.startAndComplete(taskChannel) *)
| Complete (t : Task)              (* wt.complete(taskChannel) *)
| ClearTimeout (t : Task)          (* currentTask.ClearTimeout() *)
| Send (e : Event.Event)           (* eventChannel <- e, by the loop or by Run *)
| TaskSend (e : Event.Event)       (* the same send, by the worker of a task *)
| CancelPoller                     (* cancelFunc() *)
| DrainStatusChannel               (* for range statusChannel {} *)
| Close.                           (* close(eventChannel) *)

(** *** The status collector *)

Global Instance GroupKind_eq_dec : EqDecision Object.GroupKind.
Proof. solve_decision. Defined.

Global Instance ObjMetadata_eq_dec : EqDecision Object.ObjMetadata.
Proof. solve_decision. Defined.

Global Instance GroupKind_countable : Countable Object.GroupKind :=
  inj_countable'
    (fun gk => (Object.Group gk, Object.Kind gk))
    (fun p => {| Object.Group := p.1; Object.Kind := p.2 |})
    (fun gk => match gk with Object.Build_GroupKind _ _ => eq_refl end).

Global Instance ObjMetadata_countable : Countable Object.ObjMetadata :=
  inj_countable'
    (fun o => (Object.Namespace o, Object.Name o, Object.GK o))
    (fun p => {| Object.Namespace := p.1.1; Object.Name := p.1.2; Object.GK := p.2 |})
    (fun o => match o with Object.Build_ObjMetadata _ _ _ => eq_refl end).

(** Modelled from the spec: [resourceStatusCollector] is not part of the
    sources.  "The collector holds a mapping identifier -> latest
    ResourceStatus, initialized to Unknown for each identifier in
    scope." *)
Definition newResourceStatusCollector (identifiers : list Object.ObjMetadata)
  : gmap Object.ObjMetadata Kstatus.Status :=
  foldr (fun id m => <[id := Kstatus.UnknownStatus]> m) ∅ identifiers.

(** Modelled from the spec: "Observe(identifier, status) overwrites the
    entry." *)
Definition resourceStatus (c : gmap Object.ObjMetadata Kstatus.Status)
    (id : Object.ObjMetadata) (s : Kstatus.Status)
  : gmap Object.ObjMetadata Kstatus.Status :=
  <[id := s]> c.

(** Modelled from the spec: the test behind [conditionMet], "identifiers
    not in the collector's map are treated as Unknown". *)
Definition allMatchStatus (c : gmap Object.ObjMetadata Kstatus.Status)
    (ids : list Object.ObjMetadata) (s : Kstatus.Status) : bool :=
  forallb (fun id => bool_decide (default Kstatus.UnknownStatus (c !! id) = s)) ids.

(** Modelled from the spec: "for AllCurrent, true iff every listed
    identifier currently maps to Current; for AllNotFound, true iff every
    listed identifier maps to NotFound. Identifiers not in the collector's
    map are treated as Unknown." *)
Definition conditionMet (c : gmap Object.ObjMetadata Kstatus.Status)
    (ids : list Object.ObjMetadata) (cond : Condition) : bool :=
  match cond with
  | AllCurrent => allMatchStatus c ids Kstatus.CurrentStatus
  | AllNotFound => allMatchStatus c ids Kstatus.NotFoundStatus
  end.

(** *** The runner loop *)

(** [completeIfWaitTask]. *)
Definition completeIfWaitTask (currentTask : Task) : list Op :=
  match currentTask with
  | WaitTask _ _ _ => [Complete currentTask]
  | _ => []
  end.

(** [baseRunner.nextTask]: [None] is the result [(nil, true)] of an empty
    queue, [Some (tsk, rest)] the result [(tsk, false)] together with the
    tasks left in the queue. *)
Definition nextTask (collector : gmap Object.ObjMetadata Kstatus.Status)
    (taskQueue : list Task) : list Op * option (Task * list Task) :=
  match taskQueue with
  | [] => ([], None)
  | tsk :: rest =>
      match tsk with
      | WaitTask Identifiers Condition_ _ =>
          if conditionMet collector Identifiers Condition_
          then ([StartAndComplete tsk], Some (tsk, rest))
          else ([Start tsk], Some (tsk, rest))
      | _ => ([Start tsk], Some (tsk, rest))
      end
  end.

(** The local variables of [baseRunner.run] once the first task is
    started.  [doneCh] is [false] after the loop has set the channel to
    [nil]. *)
Record loopState := {
  currentTask : Task;
  taskQueue : list Task;
  abort : bool;
  abortReason : option error;
  doneCh : bool;
  collector : gmap Object.ObjMetadata Kstatus.Status
}.

(** What the run-time system can deliver to the loop while it is blocked
    in [select], and the writes of the running task's worker on the
    shared event channel.  A schedule is any list of these: what a task
    posts on the task channel, and when, is up to the task. *)
Inductive Input :=
| StatusRecv (statusEvent : option Kstatus.Event)
    (* statusEvent, ok := <-statusChannel; [None] is [ok = false] *)
| TaskMsg (msg : TaskResult)                     (* msg := <-taskChannel *)
| CtxDone                                        (* <-doneCh *)
| WorkerSend (obj : option Unstructured).

(** Modelled from the spec: the workers of the [task] package are not part
    of the sources.  "Apply: per-object successes/failures are emitted as
    ApplyItem events through the shared event channel"; "Prune: emits a
    PruneItem event per object"; "EmitEvent: writes its pre-baked event to
    the output stream"; a Wait task writes nothing. *)
Definition workerEvent (t : Task) (obj : option Unstructured) : option Event.Event :=
  match t with
  | ApplyTask _ =>
      Some (Event.ApplyType {| Event.ApplyType_ := Event.ApplyEventResourceUpdate;
                               Event.ApplyObject := obj |})
  | PruneTask _ =>
      Some (Event.PruneType {| Event.PruneType_ := Event.PruneEventResourceUpdate;
                               Event.PruneObject := obj |})
  | SendEventTask e => Some e
  | WaitTask _ _ _ => None
  end.

Inductive Outcome :=
| Continue (st : loopState)       (* back to [select] *)
| Return (err : option error)     (* [return err] *)
| Panic.                          (* nil pointer dereference *)

Definition set_abort (st : loopState) (reason : option error) : loopState :=
  {| currentTask := currentTask st; taskQueue := taskQueue st;
     abort := true; abortReason := reason;
     doneCh := doneCh st; collector := collector st |}.

Definition set_doneCh_nil (st : loopState) : loopState :=
  {| currentTask := currentTask st; taskQueue := taskQueue st;
     abort := abort st; abortReason := abortReason st;
     doneCh := false; collector := collector st |}.

Definition set_collector (st : loopState)
    (c : gmap Object.ObjMetadata Kstatus.Status) : loopState :=
  {| currentTask := currentTask st; taskQueue := taskQueue st;
     abort := abort st; abortReason := abortReason st;
     doneCh := doneCh st; collector := c |}.

Definition set_task (st : loopState) (t : Task) (rest : list Task) : loopState :=
  {| currentTask := t; taskQueue := rest;
     abort := abort st; abortReason := abortReason st;
     doneCh := doneCh st; collector := collector st |}.

(** One turn of the [for { select { ... } }] of [baseRunner.run].  A
    receive from [doneCh] after the loop has set it to [nil] cannot be
    selected: it leaves the loop where it is.  A forwarded event whose
    [Resource] is [nil] is sent, and the read of its identifier panics. *)
Definition step (st : loopState) (i : Input) : list Op * Outcome :=
  match i with
  | StatusRecv None => ([], Continue st)
  | StatusRecv (Some statusEvent) =>
      if abort st then ([], Continue st)
      else if bool_decide (Kstatus.EventType_ statusEvent = Kstatus.ErrorEvent) then
        (completeIfWaitTask (currentTask st),
         Continue (set_abort st (Some (PollingFailed (Kstatus.Error statusEvent)))))
      else
        match Kstatus.Resource statusEvent with
        | None => ([Send (Event.StatusType statusEvent)], Panic)
        | Some r =>
            let c := resourceStatus (collector st)
                       (Kstatus.Identifier r) (Kstatus.Status_ r) in
            let completes :=
              match currentTask st with
              | WaitTask Identifiers Condition_ _ =>
                  if conditionMet c Identifiers Condition_
                  then completeIfWaitTask (currentTask st) else []
              | _ => []
              end in
            (Send (Event.StatusType statusEvent) :: completes,
             Continue (set_collector st c))
        end
  | TaskMsg msg =>
      match Err_ msg with
      | Some err => ([ClearTimeout (currentTask st)], Return (Some err))
      | None =>
          if abort st then ([ClearTimeout (currentTask st)], Return (abortReason st))
          else
            match nextTask (collector st) (taskQueue st) with
            | (ops, None) => (ClearTimeout (currentTask st) :: ops, Return None)
            | (ops, Some (t, rest)) =>
                (ClearTimeout (currentTask st) :: ops, Continue (set_task st t rest))
            end
      end
  | CtxDone =>
      if doneCh st
      then (completeIfWaitTask (currentTask st),
            Continue (set_abort (set_doneCh_nil st) (abortReason st)))
      else ([], Continue st)
  | WorkerSend obj =>
      (match workerEvent (currentTask st) obj with
       | Some e => [TaskSend e]
       | None => []
       end, Continue st)
  end.

Definition isTaskMsg (i : Input) : bool :=
  match i with TaskMsg _ => true | _ => false end.


Definition isSend (o : Op) : bool :=
  match o with Send _ => true | _ => false end.

(** The tasks started, in order. *)
Definition started (ops : list Op) : list Task :=
  omap (fun o => match o with
                 | Start t | StartAndComplete t => Some t
                 | _ => None
                 end) ops.

(** How a call of the loop ends on a finite schedule. *)
Inductive Result :=
| Returned (err : option error)
| Panicked
| Blocked (st : loopState).       (* still in [select], nothing left to receive *)

Fixpoint loop (st : loopState) (sched : list Input) : list Op * Result :=
  match sched with
  | [] => ([], Blocked st)
  | i :: sched' =>
      match step st i with
      | (ops, Continue st') =>
          let (ops', r) := loop st' sched' in (ops ++ ops', r)
      | (ops, Return err) => (ops, Returned err)
      | (ops, Panic) => (ops, Panicked)
      end
  end.

(** [baseRunner.run]. *)
Definition run (collector : gmap Object.ObjMetadata Kstatus.Status)
    (taskQueue : list Task) (sched : list Input) : list Op * Result :=
  match nextTask collector taskQueue with
  | (ops, None) => (ops, Returned None)
  | (ops, Some (currentTask, rest)) =>
      let (ops', r) :=
        loop {| currentTask := currentTask; taskQueue := rest;
                abort := false; abortReason := None;
                doneCh := true; collector := collector |} sched in
      (ops ++ ops', r)
  end.

(** [taskStatusRunner.Run] with the collector of [NewTaskStatusRunner]:
    the loop, then the poller is cancelled and its channel drained. *)
Definition Run (identifiers : list Object.ObjMetadata)
    (taskQueue : list Task) (sched : list Input) : list Op * Result :=
  let (ops, r) := run (newResourceStatusCollector identifiers) taskQueue sched in
  match r with
  | Returned err => (ops ++ [CancelPoller; DrainStatusChannel], r)
  | _ => (ops, r)
  end.





(** Modelled from the spec: the worker of [task.SendEventTask] is not part
    of the sources.  "EmitEvent. Writes its pre-baked event to the output
    stream and completes immediately."  A schedule agrees with this when,
    while a SendEvent task is in flight, its worker sends once, and the one
    message of the task comes after that send and carries no error.
    [sent] tells whether the worker of the task in flight has sent; the
    schedule is followed with [step], as [loop] does. *)
Fixpoint emitsOnce (st : loopState) (sent : bool) (sched : list Input) : bool :=
  match sched with
  | [] => true
  | i :: sched' =>
      match currentTask st, i with
      | SendEventTask _, WorkerSend _ => negb sent
      | SendEventTask _, TaskMsg msg =>
          sent && match Err_ msg with None => true | Some _ => false end
      | _, _ => true
      end
      && match step st i with
         | (_, Continue st') =>
             emitsOnce st'
               (match i with
                | WorkerSend _ => true
                | TaskMsg _ => false
                | _ => sent
                end) sched'
         | _ => true
         end
  end.

(** [emitsOnce] for a call of [baseRunner.run]. *)
Definition emitsOnce_run (collector : gmap Object.ObjMetadata Kstatus.Status)
    (taskQueue : list Task) (sched : list Input) : bool :=
  match nextTask collector taskQueue with
  | (_, None) => true
  | (_, Some (currentTask, rest)) =>
      emitsOnce {| currentTask := currentTask; taskQueue := rest;
                   abort := false; abortReason := None;
                   doneCh := true; collector := collector |} false sched
  end.

(** What a completion message makes an aborting loop return. *)
Definition abortResult (st : loopState) (msg : TaskResult) : option error :=
  match Err_ msg with
  | Some err => Some err
  | None => abortReason st
  end.

(** The state of a loop that is not aborting: no reason is stored and the
    done channel is still the one of the context. *)
Definition consistent (st : loopState) : Prop :=
  abort st = false -> abortReason st = None /\ doneCh st = true.

(** A task that does not send an [Error] event. *)
Definition plain (t : Task) : bool :=
  match t with
  | SendEventTask e => negb (Event.isError e)
  | _ => true
  end.

(** An operation that neither closes the event channel nor sends an
    [Error] event on it. *)
Definition bodyOp (o : Op) : bool :=
  match o with
  | Close => false
  | Send e | TaskSend e => negb (Event.isError e)
  | _ => true
  end.

End Taskrunner.

(** ** pkg/apply: the applier *)

Module Apply.
Import Resource Errors Taskrunner.

(** [StatusOptions]: the flags read by [buildTaskQueue] and [Run]. *)
Record StatusOptions := {
  wait : bool;
  Timeout : Z;
  period : Z
}.

(** [Applier]: the fields that decide the shape of a run. *)
Record Applier := {
  StatusOptions_ : StatusOptions;
  NoPrune : bool;
  DryRun : bool
}.

(** The functions of other packages that [readAndPrepareObjects] calls and
    that are not part of the sources: [prune.IsGroupingObject],
    [prune.CreateGroupingObj] and the order [sort.Sort(ResourceInfos(_))]
    puts a slice in. *)
Class Collaborators := {
  IsGroupingObject : Unstructured -> bool;
  CreateGroupingObj : Info -> list Info -> result Info;
  sortResourceInfos : list Info -> list Info
}.

Section WithCollaborators.
Context {C : Collaborators}.

(** The test of the loop of [splitInfos]. *)
Definition isGrouping (info : Info) : bool := IsGroupingObject (Object info).

(** [splitInfos]: the loop appends every info to one of two slices; the
    result is [(resources, groupingObjectTemplates)]. *)
Definition splitInfos (infos : list Info) : list Info * list Info :=
  let '(groupingObjectTemplates, resources) :=
    fold_left
      (fun acc info =>
         let '(groupingObjectTemplates, resources) := acc in
         if isGrouping info
         then (groupingObjectTemplates ++ [info], resources)
         else (groupingObjectTemplates, resources ++ [info]))
      infos ([], []) in
  (resources, groupingObjectTemplates).

(** The loop of [validateNamespace]. *)
Fixpoint validateNamespace_from (currentNamespace : string) (infos : list Info)
  : bool :=
  match infos with
  | [] => true
  | info :: infos' =>
      if Namespaced info then
        let currentNamespace :=
          if String.eqb currentNamespace NamespaceNone
          then Namespace info else currentNamespace in
        if negb (String.eqb currentNamespace (Namespace info)) then false
        else validateNamespace_from currentNamespace infos'
      else validateNamespace_from currentNamespace infos'
  end.

(** [validateNamespace]. *)
Definition validateNamespace (infos : list Info) : bool :=
  validateNamespace_from NamespaceNone infos.

(** [readAndPrepareObjects]; [getObjects] is what
    [a.ApplyOptions.GetObjects()] returns. *)
Definition readAndPrepareObjects (getObjects : result (list Info))
  : result (list Info) :=
  match getObjects with
  | Err err => Err err
  | Ok infos =>
      let '(resources, gots) := splitInfos infos in
      if Nat.eqb (length gots) 0 then Err NoGroupingObjError
      else if Nat.ltb 1 (length gots) then
        Err (MultipleGroupingObjError gots)
      else
        match gots with
        | [] => Err NoGroupingObjError      (* not reached: [len(gots) == 1] *)
        | got :: _ =>
            match CreateGroupingObj got resources with
            | Err err => Err err
            | Ok groupingObject =>
                let resources := sortResourceInfos resources in
                if negb (validateNamespace resources)
                then Err (Errorf "objects have differing namespaces")
                else Ok (groupingObject :: resources)
            end
        end
  end.

(** [infosToObjMetas]. *)
Definition infosToObjMetas (infos : list Info) : list Object.ObjMetadata :=
  map (fun info =>
         let u := Object info in
         {| Object.GK := uGroupKind u;
            Object.Name := uName u;
            Object.Namespace := uNamespace u |})
      infos.

(** [buildTaskQueue]: the slice [tasks] in the order in which it is
    written to the buffered channel. *)
Definition buildTaskQueue (a : Applier) (infos : list Info)
    (identifiers : list Object.ObjMetadata) : list Task :=
  let tasks :=
    [ ApplyTask infos;
      SendEventTask
        (Event.ApplyType {| Event.ApplyType_ := Event.ApplyEventCompleted;
                            Event.ApplyObject := None |}) ] in
  let tasks :=
    if wait (StatusOptions_ a) then
      tasks ++
        [ NewWaitTask identifiers AllCurrent (Timeout (StatusOptions_ a));
          SendEventTask
            (Event.StatusType {| Kstatus.EventType_ := Kstatus.CompletedEvent;
                                 Kstatus.Resource := None;
                                 Kstatus.Error := None |}) ]
    else tasks in
  let tasks :=
    if negb (NoPrune a) then
      tasks ++
        [ PruneTask infos;
          SendEventTask
            (Event.PruneType {| Event.PruneType_ := Event.PruneEventCompleted;
                                Event.PruneObject := None |}) ]
    else tasks in
  tasks.

(** The [Init] event of [Run]. *)
Definition initEvent (identifiers : list Object.ObjMetadata) : Event.Event :=
  Event.InitType
    [ {| Event.Action := Event.ApplyAction; Event.Identifiers := identifiers |} ].

(** The goroutine of [Applier.Run]: everything that happens on the event
    channel, in order, for a consumer that receives every event.  [sched]
    is what the runner loop receives.  The deferred [close] runs on every
    way out of the goroutine, a panic included; while the loop is blocked
    the goroutine has not finished. *)
Definition Run (a : Applier) (getObjects : result (list Info))
    (sched : list Input) : list Op :=
  match readAndPrepareObjects getObjects with
  | Err err =>
      [ Send (Event.ErrorType (WrapPrefix err "error reading resources")); Close ]
  | Ok infos =>
      let identifiers := infosToObjMetas infos in
      let taskQueue := buildTaskQueue a infos identifiers in
      Send (initEvent identifiers) ::
      match Taskrunner.Run identifiers taskQueue sched with
      | (ops, Returned (Some err)) => ops ++ [ Send (Event.ErrorType err); Close ]
      | (ops, Returned None) => ops ++ [ Close ]
      | (ops, Panicked) => ops ++ [ Close ]
      | (ops, Blocked _) => ops
      end
  end.

End WithCollaborators.

(** The events sent on the channel, in order. *)
Definition events (ops : list Op) : list Event.Event :=
  omap (fun o => match o with Send e | TaskSend e => Some e | _ => None end) ops.



(** The phase-completion events that [buildTaskQueue] plans. *)
Definition applyCompleted : Event.Event :=
  Event.ApplyType {| Event.ApplyType_ := Event.ApplyEventCompleted;
                     Event.ApplyObject := None |}.
Definition statusCompleted : Event.Event :=
  Event.StatusType {| Kstatus.EventType_ := Kstatus.CompletedEvent;
                      Kstatus.Resource := None; Kstatus.Error := None |}.
Definition pruneCompleted : Event.Event :=
  Event.PruneType {| Event.PruneType_ := Event.PruneEventCompleted;
                     Event.PruneObject := None |}.

(** The [Error] event of [Run] for a failure of [readAndPrepareObjects]. *)
Definition readError (err : error) : Event.Event :=
  Event.ErrorType (WrapPrefix err "error reading resources").

End Apply.

(** ** Fixtures: concrete collaborators and manifests *)

Module Fixtures.
Import Resource Errors Taskrunner Apply.
Local Open Scope string_scope.

(** A grouping object is marked by a label. *)
Definition GroupingLabel : string := "cli-utils.sigs.k8s.io/inventory-id".

Definition labelled : Collaborators := {|
  IsGroupingObject u := bool_decide (is_Some (uLabels u !! GroupingLabel));
  CreateGroupingObj got _ := Ok got;
  sortResourceInfos infos := infos
|}.

Definition mkInfo (group kind ns name : string) (labels : gmap string string) : Info :=
  {| Object := {| uGroupKind := {| Object.Group := group; Object.Kind := kind |};
                  uName := name; uNamespace := ns; uLabels := labels |};
     Namespace := ns; Namespaced := true |}.

Definition deployment : Info := mkInfo "apps" "Deployment" "default" "foo" ∅.
Definition groupingTemplate : Info :=
  mkInfo "" "ConfigMap" "default" "inventory" {[ GroupingLabel := "test" ]}.
Definition groupingTemplate2 : Info :=
  mkInfo "" "ConfigMap" "default" "inventory-2" {[ GroupingLabel := "other" ]}.

Definition fooId : Object.ObjMetadata :=
  {| Object.Namespace := "default"; Object.Name := "foo";
     Object.GK := {| Object.Group := "apps"; Object.Kind := "Deployment" |} |}.
Definition inventoryId : Object.ObjMetadata :=
  {| Object.Namespace := "default"; Object.Name := "inventory";
     Object.GK := {| Object.Group := ""; Object.Kind := "ConfigMap" |} |}.

Definition waitAndPrune : Applier :=
  {| StatusOptions_ := {| wait := true; Apply.Timeout := 30000000000; period := 2000000000 |};
     NoPrune := false; DryRun := false |}.

Definition applyOnly : Applier :=
  {| StatusOptions_ := {| wait := false; Apply.Timeout := 0; period := 2000000000 |};
     NoPrune := true; DryRun := false |}.

Definition ok : TaskResult := {| Err_ := None |}.
Definition failed (err : error) : TaskResult := {| Err_ := Some err |}.

Definition pollError : Kstatus.Event :=
  {| Kstatus.EventType_ := Kstatus.ErrorEvent; Kstatus.Resource := None;
     Kstatus.Error := Some (Foreign "connection refused") |}.

Definition update (id : Object.ObjMetadata) (s : Kstatus.Status) : Kstatus.Event :=
  {| Kstatus.EventType_ := Kstatus.ResourceUpdateEvent;
     Kstatus.Resource := Some {| Kstatus.Identifier := id; Kstatus.Status_ := s |};
     Kstatus.Error := None |}.

(** The applied set of the manifests [deployment] and [groupingTemplate],
    its identifiers, and the tasks made from them. *)
Definition applied : list Info := [groupingTemplate; deployment].
Definition identifiers : list Object.ObjMetadata := [inventoryId; fooId].
Definition applyTask : Task := ApplyTask applied.
Definition waitTask : Task := WaitTask identifiers AllCurrent 30000000000.

(** The loop of a run with [waitAndPrune] while the Wait task is in
    flight. *)
Definition waiting : loopState :=
  {| currentTask := waitTask;
     taskQueue := [SendEventTask statusCompleted; PruneTask applied;
                   SendEventTask pruneCompleted];
     abort := false; abortReason := None; doneCh := true;
     collector := newResourceStatusCollector identifiers |}.


(** An identifier whose kind ends in a space. *)
Definition padded : Object.ObjMetadata :=
  {| Object.Namespace := "default"; Object.Name := "foo";
     Object.GK := {| Object.Group := "apps"; Object.Kind := "Deployment " |} |}.

(** An identifier whose name holds the field separator. *)
Definition underscored : Object.ObjMetadata :=
  {| Object.Namespace := "default"; Object.Name := "my_app";
     Object.GK := {| Object.Group := "apps"; Object.Kind := "Deployment" |} |}.

End Fixtures.

(** ** The runner loop: what a run shows *)

Module RunnerSpec.
Import Errors Taskrunner.

(** The tasks whose timeout was cleared, in order. *)
Definition cleared (ops : list Op) : list Task :=
  omap (fun o => match o with ClearTimeout t => Some t | _ => None end) ops.

(** The tasks on which [complete] or [startAndComplete] was called. *)
Definition completed (ops : list Op) : list Task :=
  omap (fun o => match o with
                 | Complete t | StartAndComplete t => Some t
                 | _ => None
                 end) ops.

(** The events the loop itself sent on the event channel, in order. *)
Definition forwarded (ops : list Op) : list Event.Event :=
  omap (fun o => match o with Send e => Some e | _ => None end) ops.

Definition isStatusRecv (i : Input) : bool :=
  match i with StatusRecv _ => true | _ => false end.

(** A receive from the status channel after it was closed. *)
Definition isClosedRecv (i : Input) : bool :=
  match i with StatusRecv None => true | _ => false end.

Definition isErrorObservation (ev : Kstatus.Event) : bool :=
  bool_decide (Kstatus.EventType_ ev = Kstatus.ErrorEvent).

(** The observations of a schedule that are not error observations, as
    the [Status] events they are forwarded as. *)
Definition observed (sched : list Input) : list Event.Event :=
  omap (fun i => match i with
                 | StatusRecv (Some ev) =>
                     if isErrorObservation ev then None
                     else Some (Event.StatusType ev)
                 | _ => None
                 end) sched.

(** The number of messages on the task channel. *)
Definition countMsgs (sched : list Input) : nat :=
  length (List.filter isTaskMsg sched).

(** An input of a run in which nothing goes wrong: no cancellation, no
    error observation, no observation without a resource, no task error. *)
Definition benign (i : Input) : bool :=
  match i with
  | StatusRecv (Some ev) =>
      negb (isErrorObservation ev)
      && match Kstatus.Resource ev with Some _ => true | None => false end
  | TaskMsg msg => match Err_ msg with None => true | Some _ => false end
  | CtxDone => false
  | _ => true
  end.

(** [taskRunner.Run] with the collector of [NewTaskRunner]: the status
    channel handed to the loop is [nil], a channel that never delivers, so
    the status receives of a schedule do not take place. *)
Definition TaskRunner_Run (taskQueue : list Task) (sched : list Input)
  : list Op * Result :=
  run (newResourceStatusCollector [])
      taskQueue (List.filter (fun i => negb (isStatusRecv i)) sched).

End RunnerSpec.

(** ** pkg/apply: setting up the applier *)

Module Setup.
Import Errors.

Section WithFactory.
(** The values of other packages that [Initialize] only passes on, and
    [Rest], the fields of the option structs that it does not write. *)
Context {FileNameFlags RESTConfig RESTMapper Client Poller PostProcessor Rest : Type}.

(** [apply.ApplyOptions]: [DeleteFlags.FileNameFlags], [PostProcessorFn]
    and [DryRun], which [Initialize] writes. *)
Record ApplyOptions := {
  aoFileNameFlags : option FileNameFlags;
  aoPostProcessorFn : option PostProcessor;
  aoDryRun : bool;
  aoRest : Rest
}.

(** [prune.PruneOptions]. *)
Record PruneOptions := {
  poDryRun : bool;
  poRest : Rest
}.

(** [Applier]: the fields that [Initialize] reads and writes. *)
Record Applier := {
  ApplyOptions_ : ApplyOptions;
  PruneOptions_ : PruneOptions;
  statusPoller : option Poller;
  DryRun : bool
}.

(** The calls of [Initialize] and [newStatusPoller] into other packages.
    [Complete] and [PruneInitialize] are methods of the option structs and
    may write any of their fields. *)
Class Factory := {
  demandOneDirectory : list string -> result FileNameFlags;
  Complete : ApplyOptions -> ApplyOptions * option error;
  PruneInitialize : PruneOptions -> PruneOptions * option error;
  ToRESTConfig : result RESTConfig;
  ToRESTMapper : result RESTMapper;
  clientNew : RESTConfig -> RESTMapper -> result Client;
  NewStatusPoller : Client -> RESTMapper -> Poller
}.

Context {F : Factory}.

(** [Applier.newStatusPoller]. *)
Definition newStatusPoller : result Poller :=
  match ToRESTConfig with
  | Err err => Err (WrapPrefix err "error getting RESTConfig")
  | Ok config =>
      match ToRESTMapper with
      | Err err => Err (WrapPrefix err "error getting RESTMapper")
      | Ok mapper =>
          match clientNew config mapper with
          | Err err => Err (WrapPrefix err "error creating client")
          | Ok c => Ok (NewStatusPoller c mapper)
          end
      end
  end.

Definition set_ApplyOptions (a : Applier) (o : ApplyOptions) : Applier :=
  {| ApplyOptions_ := o; PruneOptions_ := PruneOptions_ a;
     statusPoller := statusPoller a; DryRun := DryRun a |}.

Definition set_PruneOptions (a : Applier) (o : PruneOptions) : Applier :=
  {| ApplyOptions_ := ApplyOptions_ a; PruneOptions_ := o;
     statusPoller := statusPoller a; DryRun := DryRun a |}.

Definition set_statusPoller (a : Applier) (p : option Poller) : Applier :=
  {| ApplyOptions_ := ApplyOptions_ a; PruneOptions_ := PruneOptions_ a;
     statusPoller := p; DryRun := DryRun a |}.

(** [Applier.Initialize]: the applier as the call leaves it, and the error
    it returns. *)
Definition Initialize (a : Applier) (paths : list string) : Applier * option error :=
  match demandOneDirectory paths with
  | Err err => (a, Some err)
  | Ok fileNameFlags =>
      let a :=
        set_ApplyOptions a
          {| aoFileNameFlags := Some fileNameFlags;
             aoPostProcessorFn := aoPostProcessorFn (ApplyOptions_ a);
             aoDryRun := aoDryRun (ApplyOptions_ a);
             aoRest := aoRest (ApplyOptions_ a) |} in
      let (o, err) := Complete (ApplyOptions_ a) in
      let a := set_ApplyOptions a o in
      match err with
      | Some err => (a, Some (WrapPrefix err "error setting up ApplyOptions"))
      | None =>
          let a :=
            set_ApplyOptions a
              {| aoFileNameFlags := aoFileNameFlags (ApplyOptions_ a);
                 aoPostProcessorFn := None;
                 aoDryRun := aoDryRun (ApplyOptions_ a);
                 aoRest := aoRest (ApplyOptions_ a) |} in
          let (p, err) := PruneInitialize (PruneOptions_ a) in
          let a := set_PruneOptions a p in
          match err with
          | Some err => (a, Some (WrapPrefix err "error setting up PruneOptions"))
          | None =>
              let a :=
                set_ApplyOptions a
                  {| aoFileNameFlags := aoFileNameFlags (ApplyOptions_ a);
                     aoPostProcessorFn := aoPostProcessorFn (ApplyOptions_ a);
                     aoDryRun := DryRun a;
                     aoRest := aoRest (ApplyOptions_ a) |} in
              let a :=
                set_PruneOptions a
                  {| poDryRun := DryRun a; poRest := poRest (PruneOptions_ a) |} in
              match newStatusPoller with
              | Err err => (a, Some (WrapPrefix err "error creating resolver"))
              | Ok statusPoller => (set_statusPoller a (Some statusPoller), None)
              end
          end
      end
  end.

End WithFactory.

Global Arguments ApplyOptions : clear implicits.
Global Arguments PruneOptions : clear implicits.
Global Arguments Applier : clear implicits.
Global Arguments Factory : clear implicits.

End Setup.

(** ** cmd/apply: the [apply] command *)

Module Command.
Import Errors.

Section WithWire.
(** [Rest] stands for the fields of [apply.Apply] other than [Prune], and
    [Resource] for the elements of the [Resources] of a result. *)
Context {Rest Resource : Type}.

(** [apply.Apply]. *)
Record Apply := {
  Prune : bool;
  applyRest : Rest
}.

(** The calls of [RunE] into other packages: [wireapply.InitializeApply]
    for a path, [cmd.Flags().GetBool("prune")] and
    [wireapply.NewApplyCommandResult], of whose result only [Resources] is
    read. *)
Class Wire := {
  InitializeApply : string -> result Apply;
  GetBool_prune : result bool;
  NewApplyCommandResult : Apply -> result (list Resource)
}.

Context {W : Wire}.

(** The body of the loop of [RunE] for one argument: the number that is
    printed, or the error that is returned. *)
Definition runArg (arg : string) : result nat :=
  match InitializeApply arg with
  | Err err => Err err
  | Ok apply =>
      match GetBool_prune with
      | Err perr => Err perr
      | Ok prune =>
          let apply := {| Prune := prune; applyRest := applyRest apply |} in
          match NewApplyCommandResult apply with
          | Err aerr => Err aerr
          | Ok r => Ok (length r)
          end
      end
  end.

(** [cmd.RunE] of [GetApplyCommand]: the numbers [n] of the lines
    "Resources: n" written to the output, and the error returned. *)
Fixpoint RunE (args : list string) : list nat * option error :=
  match args with
  | [] => ([], None)
  | arg :: args' =>
      match runArg arg with
      | Err err => ([], Some err)
      | Ok n => let (out, err) := RunE args' in (n :: out, err)
      end
  end.

End WithWire.

Global Arguments Apply : clear implicits.
Global Arguments Wire : clear implicits.

End Command.

(** ** pkg/kstatus/polling/engine: the fakes of the engine tests *)

Module EngineFakes.
Import Kstatus.

(** Addition of Go's [int], 64 bits wide. *)
Definition wrap64 (z : Z) : Z := (z + 2 ^ 63) mod 2 ^ 64 - 2 ^ 63.

(** [fakeStatusReader]. *)
Record fakeStatusReader := {
  resourceStatuses : gmap Object.GroupKind (list Status);
  resourceStatusCount : gmap Object.GroupKind Z
}.

(** [slice[i]]: [None] is the panic of an index out of range. *)
Definition index (slice : list Status) (i : Z) : option Status :=
  if (i <? 0) then None else slice !! Z.to_nat i.

(** [fakeStatusReader.ReadStatus]: the status read and the reader after
    the call; [None] is a panic.  A key that a map does not hold reads as
    zero: count [0], a [nil] slice.  Both maps are made, as in the tests. *)
Definition ReadStatus (f : fakeStatusReader) (identifier : Object.ObjMetadata)
  : option (ResourceStatus * fakeStatusReader) :=
  let count := default 0 (resourceStatusCount f !! Object.GK identifier) in
  let resourceStatusSlice := default [] (resourceStatuses f !! Object.GK identifier) in
  let resourceStatus :=
    if (Z.of_nat (length resourceStatusSlice) >? count)
    then index resourceStatusSlice count
    else index resourceStatusSlice (Z.of_nat (length resourceStatusSlice) - 1) in
  match resourceStatus with
  | None => None
  | Some s =>
      Some ({| Identifier := identifier; Status_ := s |},
            {| resourceStatuses := resourceStatuses f;
               resourceStatusCount :=
                 <[Object.GK identifier := wrap64 (count + 1)]> (resourceStatusCount f) |})
  end.



(** [fakeAggregator]. *)
Record fakeAggregator := {
  statuses : gmap Object.ObjMetadata Status
}.

(** [newFakeAggregator]. *)
Definition newFakeAggregator (identifiers : list Object.ObjMetadata) : fakeAggregator :=
  {| statuses :=
       fold_left (fun statuses id => <[id := UnknownStatus]> statuses) identifiers ∅ |}.

(** [fakeAggregator.ResourceStatus], for a [resource] that is not [nil]. *)
Definition ResourceStatus_ (f : fakeAggregator) (resource : ResourceStatus)
  : fakeAggregator :=
  {| statuses := <[Identifier resource := Status_ resource]> (statuses f) |}.

(** [fakeAggregator.AggregateStatus]: the loop over the entries of the
    map, here in the order of [map_to_list]. *)
Definition AggregateStatus (f : fakeAggregator) : Status :=
  if forallb (fun entry => bool_decide (entry.2 = CurrentStatus))
       (map_to_list (statuses f))
  then CurrentStatus else InProgressStatus.

(** [fakeAggregator.Completed]. *)
Definition Completed (f : fakeAggregator) : bool :=
  bool_decide (AggregateStatus f = CurrentStatus).

(** [ResourceStatus] for one observation after the other. *)
Definition observeAll (f : fakeAggregator) (observations : list ResourceStatus)
  : fakeAggregator :=
  fold_left ResourceStatus_ observations f.

(** The status of the last observation of an identifier, if it was
    observed. *)
Definition latest (observations : list ResourceStatus) (id : Object.ObjMetadata)
  : option Status :=
  fold_left (fun acc r => if decide (Identifier r = id) then Some (Status_ r) else acc)
    observations None.

End EngineFakes.

(** ** More fixtures *)

Module MoreFixtures.
Import Resource Errors Kstatus Taskrunner Fixtures.
Local Open Scope string_scope.

(** A Service in another namespace, a cluster-scoped object and a
    namespaced object whose info carries no namespace. *)
Definition serviceOther : Info := mkInfo "" "Service" "other" "bar" ∅.
Definition clusterRole : Info :=
  {| Object := {| uGroupKind := {| Object.Group := "rbac.authorization.k8s.io";
                                   Object.Kind := "ClusterRole" |};
                  uName := "reader"; uNamespace := ""; uLabels := ∅ |};
     Namespace := ""; Namespaced := false |}.
Definition unplaced : Info :=
  {| Object := {| uGroupKind := {| Object.Group := ""; Object.Kind := "ConfigMap" |};
                  uName := "settings"; uNamespace := ""; uLabels := ∅ |};
     Namespace := ""; Namespaced := true |}.

(** A factory whose calls all succeed, and one without a REST mapper. *)
Definition goodFactory : Setup.Factory string string string string string string unit := {|
  Setup.demandOneDirectory paths :=
    match paths with
    | [path] => Ok path
    | _ => Err (Foreign "specify exactly one directory path argument")
    end;
  Setup.Complete o := (o, None);
  Setup.PruneInitialize o := (o, None);
  Setup.ToRESTConfig := Ok "config";
  Setup.ToRESTMapper := Ok "mapper";
  Setup.clientNew config mapper := Ok "client";
  Setup.NewStatusPoller c mapper := "poller"
|}.

Definition noMapperFactory : Setup.Factory string string string string string string unit := {|
  Setup.demandOneDirectory paths :=
    match paths with
    | [path] => Ok path
    | _ => Err (Foreign "specify exactly one directory path argument")
    end;
  Setup.Complete o := (o, None);
  Setup.PruneInitialize o := (o, None);
  Setup.ToRESTConfig := Ok "config";
  Setup.ToRESTMapper := Err (Foreign "no mapper");
  Setup.clientNew config mapper := Ok "client";
  Setup.NewStatusPoller c mapper := "poller"
|}.

Definition dryRunApplier : Setup.Applier string string string unit :=
  {| Setup.ApplyOptions_ :=
       {| Setup.aoFileNameFlags := None; Setup.aoPostProcessorFn := Some "prune";
          Setup.aoDryRun := false; Setup.aoRest := tt |};
     Setup.PruneOptions_ := {| Setup.poDryRun := false; Setup.poRest := tt |};
     Setup.statusPoller := None;
     Setup.DryRun := true |}.

(** Paths that hold two resources each, but for the path "missing". *)
Definition twoResources : Command.Wire string string := {|
  Command.InitializeApply arg :=
    if String.eqb arg "missing" then Err (Foreign "no such directory")
    else Ok {| Command.Prune := false; Command.applyRest := arg |};
  Command.GetBool_prune := Ok true;
  Command.NewApplyCommandResult apply :=
    Ok [Command.applyRest apply; Command.applyRest apply]
|}.

(** The reader of the case "multiple resources" of [TestStatusPollerRunner]. *)
Definition deploymentKind : Object.GroupKind :=
  {| Object.Group := "apps"; Object.Kind := "Deployment" |}.
Definition serviceKind : Object.GroupKind :=
  {| Object.Group := ""; Object.Kind := "Service" |}.
Definition scriptedReader : EngineFakes.fakeStatusReader :=
  {| EngineFakes.resourceStatuses :=
       {[ deploymentKind := [InProgressStatus; CurrentStatus];
          serviceKind := [InProgressStatus; InProgressStatus; CurrentStatus] ]};
     EngineFakes.resourceStatusCount := ∅ |}.
Definition barId : Object.ObjMetadata :=
  {| Object.Namespace := "default"; Object.Name := "bar"; Object.GK := serviceKind |}.
Definition podId : Object.ObjMetadata :=
  {| Object.Namespace := "default"; Object.Name := "pod";
     Object.GK := {| Object.Group := ""; Object.Kind := "Pod" |} |}.

End MoreFixtures.

(** * Properties *)

(** ** The text form of identifiers *)

Module ObjectTests.
Import GoStrings Object.
Local Open Scope string_scope.

(** The cases of [TestCreateObjMetadata]. *)
Example create_trims :
  String_ <$> createObjMetadata (String " " (String " " (String LF "")))
    (" test-name" +:+ String TAB "") {| Group := "apps"; Kind := "ReplicaSet" |}
  = Some "_test-name_apps_ReplicaSet".
Proof. reflexivity. Qed.

Example create_namespace :
  String_ <$> createObjMetadata "test-namespace "
    (" test-name" +:+ String TAB "") {| Group := "apps"; Kind := "ReplicaSet" |}
  = Some "test-namespace_test-name_apps_ReplicaSet".
Proof. reflexivity. Qed.

Example create_empty_name :
  createObjMetadata "test-namespace " (String " " (String TAB ""))
    {| Group := "apps"; Kind := "ReplicaSet" |} = None.
Proof. reflexivity. Qed.

Example create_empty_gk :
  createObjMetadata "test-namespace" "test-name" {| Group := ""; Kind := "" |} = None.
Proof. reflexivity. Qed.

(** The cases of [TestParseObjMetadata]. *)
Example parse_no_namespace :
  parseObjMetadata ("_test-name_apps_ReplicaSet" +:+ String TAB "")
  = Some {| Namespace := ""; Name := "test-name";
            GK := {| Group := "apps"; Kind := "ReplicaSet" |} |}.
Proof. reflexivity. Qed.

Example parse_namespace :
  parseObjMetadata "test-namespace_test-name_apps_Deployment"
  = Some {| Namespace := "test-namespace"; Name := "test-name";
            GK := {| Group := "apps"; Kind := "Deployment" |} |}.
Proof. reflexivity. Qed.

Example parse_three_fields : parseObjMetadata "_test-name_apps" = None.
Proof. reflexivity. Qed.

(** [strings.TrimSpace] trims the white space of Unicode, not of ASCII
    alone, and only at the two ends. *)
Example trim_unicode :
  TrimSpace (NBSP +:+ " a b" +:+ String TAB NBSP) = "a b".
Proof. reflexivity. Qed.

Example trim_inner : TrimSpace ("a" +:+ NBSP +:+ "b") = "a" +:+ NBSP +:+ "b".
Proof. reflexivity. Qed.

Example parse_unicode :
  parseObjMetadata (NBSP +:+ "ns_" +:+ NBSP +:+ "_apps_Deployment") = None
  /\ parseObjMetadata ("ns_test-name" +:+ NBSP +:+ "_apps_Deployment" +:+ NBSP)
     = Some {| Namespace := "ns"; Name := "test-name";
               GK := {| Group := "apps"; Kind := "Deployment" |} |}.
Proof. split; reflexivity. Qed.

End ObjectTests.

Section StringFacts.
Import GoStrings.
Variable sep : ascii.

Lemma Split_length (s : string) : length (Split sep s) = S (Count sep s).
Proof.
  induction s as [|c s IH]; simpl; [reflexivity|].
  destruct (Ascii.eqb c sep); simpl; [by rewrite IH|].
  destruct (Split sep s); simpl in *; congruence.
Qed.

Lemma Count_append (a b : string) :
  Count sep (a +:+ b) = (Count sep a + Count sep b)%nat.
Proof.
  induction a as [|c a IH]; simpl; [reflexivity|].
  destruct (Ascii.eqb c sep); simpl; by rewrite IH.
Qed.

Lemma Count_String_sep (r : string) : Count sep (String sep r) = S (Count sep r).
Proof. simpl. by rewrite Ascii.eqb_refl. Qed.

Lemma Split_no_sep (a : string) : Count sep a = O -> Split sep a = [a].
Proof.
  induction a as [|c a IH]; simpl; [reflexivity|].
  destruct (Ascii.eqb c sep); [discriminate|].
  intros Hc. by rewrite (IH Hc).
Qed.

Lemma Split_append_sep (a r : string) :
  Count sep a = O -> Split sep (a +:+ String sep r) = a :: Split sep r.
Proof.
  induction a as [|c a IH]; simpl.
  - intros _. by rewrite Ascii.eqb_refl.
  - destruct (Ascii.eqb c sep); [discriminate|].
    intros Hc. by rewrite (IH Hc).
Qed.

End StringFacts.

Section TrimFacts.
Import GoStrings.
Variable sp1 : ascii -> bool.
Variable sp2 : ascii -> ascii -> bool.
Variable sp3 : ascii -> ascii -> ascii -> bool.

(** A trim from the left stops where no white space rune starts. *)
Lemma trimLeftWith_fix (l : list ascii) :
  startsSpace sp1 sp2 sp3 l = false -> trimLeftWith sp1 sp2 sp3 l = l.
Proof.
  destruct l as [|c1 [|c2 [|c3 l]]]; simpl; try done.
  - rewrite orb_false_r. by intros ->.
  - rewrite orb_false_r. intros [-> ->]%orb_false_iff. done.
  - intros [-> [-> ->]%orb_false_iff]%orb_false_iff. done.
Qed.

Lemma trimLeftWith_spec (n : nat) (l : list ascii) :
  (length l <= n)%nat ->
  startsSpace sp1 sp2 sp3 (trimLeftWith sp1 sp2 sp3 l) = false
  /\ trimLeftWith sp1 sp2 sp3 l `suffix_of` l.
Proof.
  revert l. induction n as [|n IH]; intros l Hl.
  { destruct l; [done|simpl in Hl; lia]. }
  destruct l as [|c1 l1]; [done|]. simpl in Hl.
  cbn [trimLeftWith].
  destruct (sp1 c1) eqn:H1.
  { destruct (IH l1 ltac:(lia)) as [? ?]. split; [done|]. by apply suffix_cons_r. }
  destruct l1 as [|c2 l2].
  { split; [simpl; by rewrite H1|done]. }
  simpl in Hl. destruct (sp2 c1 c2) eqn:H2.
  { destruct (IH l2 ltac:(lia)) as [? ?]. split; [done|].
    by do 2 apply suffix_cons_r. }
  destruct l2 as [|c3 l3].
  { split; [simpl; by rewrite H1, H2|done]. }
  simpl in Hl. destruct (sp3 c1 c2 c3) eqn:H3.
  { destruct (IH l3 ltac:(lia)) as [? ?]. split; [done|].
    by do 3 apply suffix_cons_r. }
  split; [simpl; by rewrite H1, H2, H3|done].
Qed.

Lemma trimLeftWith_idem (l : list ascii) :
  trimLeftWith sp1 sp2 sp3 (trimLeftWith sp1 sp2 sp3 l) = trimLeftWith sp1 sp2 sp3 l.
Proof. apply trimLeftWith_fix, (trimLeftWith_spec (length l)). done. Qed.

Lemma startsSpace_prefix (l k : list ascii) :
  startsSpace sp1 sp2 sp3 l = false -> k `prefix_of` l ->
  startsSpace sp1 sp2 sp3 k = false.
Proof.
  intros Hl [t ->].
  destruct k as [|c1 [|c2 [|c3 k]]]; simpl in *; try done.
  - apply orb_false_iff in Hl as [-> _]. done.
  - apply orb_false_iff in Hl as [-> Hl]. destruct t; simpl in *.
    + by rewrite orb_false_r in Hl |- *.
    + apply orb_false_iff in Hl as [-> _]. done.
Qed.

End TrimFacts.

Section TrimSpaceFacts.
Import GoStrings.

Lemma trimRight_prefix (l : list ascii) : trimRight l `prefix_of` l.
Proof.
  unfold trimRight.
  destruct (proj2 (trimLeftWith_spec space1 (fun c2 c1 => space2 c1 c2)
                     (fun c3 c2 c1 => space3 c1 c2 c3) (length (rev l)) (rev l)
                     ltac:(done))) as [p Hp].
  exists (rev p). rewrite <- rev_app_distr, <- Hp. by rewrite rev_involutive.
Qed.

Lemma trimRight_idem (l : list ascii) : trimRight (trimRight l) = trimRight l.
Proof. unfold trimRight. by rewrite rev_involutive, trimLeftWith_idem. Qed.

Lemma TrimSpace_idem (s : string) : TrimSpace (TrimSpace s) = TrimSpace s.
Proof.
  unfold TrimSpace. rewrite list_ascii_of_string_of_list_ascii.
  set (x := trimLeft (list_ascii_of_string s)).
  assert (trimLeft (trimRight x) = trimRight x) as ->.
  { apply trimLeftWith_fix.
    apply (startsSpace_prefix _ _ _ x); [|apply trimRight_prefix].
    apply (trimLeftWith_spec _ _ _ (length (list_ascii_of_string s))). done. }
  by rewrite trimRight_idem.
Qed.

End TrimSpaceFacts.

Section ObjMetadataFacts.
Import GoStrings Object.

Lemma createObjMetadata_Some (namespace name : string) (gk : GroupKind)
    (o : ObjMetadata) :
  createObjMetadata namespace name gk = Some o ->
  o = {| Namespace := TrimSpace namespace; Name := TrimSpace name; GK := gk |}
  /\ TrimSpace name <> EmptyString /\ GroupKind_Empty gk = false.
Proof.
  unfold createObjMetadata.
  destruct (String.eqb (TrimSpace name) EmptyString) eqn:En; [discriminate|].
  destruct (GroupKind_Empty gk) eqn:Eg; [discriminate|].
  intros [= <-]. apply String.eqb_neq in En. done.
Qed.

Lemma createObjMetadata_trimmed (namespace name : string) (gk : GroupKind) :
  TrimSpace name <> EmptyString -> GroupKind_Empty gk = false ->
  createObjMetadata (TrimSpace namespace) (TrimSpace name) gk
  = Some {| Namespace := TrimSpace namespace; Name := TrimSpace name; GK := gk |}.
Proof.
  intros Hn Hg. unfold createObjMetadata.
  rewrite !TrimSpace_idem, Hg.
  apply String.eqb_neq in Hn. by rewrite Hn.
Qed.

Lemma String_fields (o : ObjMetadata) :
  Count fieldSeparator (String_ o)
  = (3 + Count fieldSeparator (Namespace o) + Count fieldSeparator (Name o)
     + Count fieldSeparator (Group (GK o)) + Count fieldSeparator (Kind (GK o)))%nat.
Proof.
  unfold String_.
  rewrite !Count_append, !Count_String_sep, !Count_append, !Count_String_sep,
    !Count_append, !Count_String_sep.
  lia.
Qed.

(** C7, as amended.  An identifier made by [createObjMetadata] whose four
    fields hold no underscore and whose group and kind carry no surrounding
    white space is parsed back from its text form; the text form of any
    identifier has at least four underscore-separated fields; a string
    with fewer than four fields is rejected, and so is one of four fields
    whose name, or whose group and kind, are empty after trimming. *)
Theorem parse_render_roundtrip :
  (forall namespace name gk o,
      createObjMetadata namespace name gk = Some o ->
      Count fieldSeparator (Namespace o) = O ->
      Count fieldSeparator (Name o) = O ->
      Count fieldSeparator (Group gk) = O ->
      Count fieldSeparator (Kind gk) = O ->
      TrimSpace (Group gk) = Group gk ->
      TrimSpace (Kind gk) = Kind gk ->
      parseObjMetadata (String_ o) = Some o)
  /\ (forall o, (4 <= length (Split fieldSeparator (String_ o)))%nat)
  /\ (forall inv, (length (Split fieldSeparator inv) < 4)%nat ->
                  parseObjMetadata inv = None)
  /\ (forall inv p0 p1 p2 p3,
        Split fieldSeparator inv = [p0; p1; p2; p3] ->
        TrimSpace p1 = EmptyString
        \/ (TrimSpace p2 = EmptyString /\ TrimSpace p3 = EmptyString) ->
        parseObjMetadata inv = None).
Proof.
  repeat split.
  - intros namespace name gk o Hc Hns Hname Hg Hk Tg Tk.
    destruct (createObjMetadata_Some _ _ _ _ Hc) as (-> & Hne & Hgk).
    simpl in Hns, Hname.
    unfold parseObjMetadata, String_; simpl.
    rewrite (Split_append_sep _ _ _ Hns), (Split_append_sep _ _ _ Hname),
      (Split_append_sep _ _ _ Hg), (Split_no_sep _ _ Hk).
    rewrite Tg, Tk. destruct gk as [g k]; simpl.
    by apply createObjMetadata_trimmed.
  - intros o. rewrite Split_length, String_fields. lia.
  - intros inv Hlen. unfold parseObjMetadata.
    destruct (Split fieldSeparator inv) as [|p0 [|p1 [|p2 [|p3 [|p4 l]]]]];
      try reflexivity.
    simpl in Hlen. lia.
  - intros inv p0 p1 p2 p3 Hs Hempty.
    unfold parseObjMetadata. rewrite Hs. unfold createObjMetadata.
    destruct Hempty as [-> | [-> ->]]; [reflexivity|].
    simpl. by destruct (String.eqb (TrimSpace p1) EmptyString).
Qed.

Lemma parse_render_roundtrip_witness :
  parseObjMetadata (String_ Fixtures.fooId) = Some Fixtures.fooId
  /\ parseObjMetadata "_test-name_apps" = None
  /\ parseObjMetadata "ns_ _apps_Deployment" = None.
Proof.
  split; [|split].
  - apply (proj1 parse_render_roundtrip "default " " foo"
             {| Group := "apps"; Kind := "Deployment" |} Fixtures.fooId);
      reflexivity.
  - apply (proj1 (proj2 (proj2 parse_render_roundtrip))). simpl. lia.
  - apply (proj2 (proj2 (proj2 parse_render_roundtrip)) _ "ns" " " "apps" "Deployment");
      [reflexivity | left; reflexivity].
Defined.

(** C7 as stated fails, in two ways.  The identifier [default/my_app] of
    [apps/Deployment] has a non-empty name and group-kind and is what
    [createObjMetadata] returns for its own fields, yet its text form has
    five fields and is rejected.  The identifier [default/foo] whose kind
    ends in a space has a non-empty name and group-kind after trimming and
    is what [createObjMetadata] returns for its own fields, yet the parser
    trims its fourth field and returns another identifier. *)
Lemma parse_render_underscore :
  (TrimSpace (Name Fixtures.underscored) <> EmptyString
   /\ GroupKind_Empty (GK Fixtures.underscored) = false
   /\ createObjMetadata (Namespace Fixtures.underscored) (Name Fixtures.underscored)
        (GK Fixtures.underscored) = Some Fixtures.underscored
   /\ String_ Fixtures.underscored = "default_my_app_apps_Deployment"
   /\ parseObjMetadata (String_ Fixtures.underscored) = None
   /\ parseObjMetadata (String_ Fixtures.underscored) <> Some Fixtures.underscored)
  /\ (TrimSpace (Name Fixtures.padded) <> EmptyString
      /\ TrimSpace (Group (GK Fixtures.padded)) <> EmptyString
      /\ TrimSpace (Kind (GK Fixtures.padded)) <> EmptyString
      /\ createObjMetadata (Namespace Fixtures.padded) (Name Fixtures.padded)
           (GK Fixtures.padded) = Some Fixtures.padded
      /\ String_ Fixtures.padded = "default_foo_apps_Deployment "
      /\ parseObjMetadata (String_ Fixtures.padded) = Some Fixtures.fooId
      /\ parseObjMetadata (String_ Fixtures.padded) <> Some Fixtures.padded).
Proof. repeat split; try reflexivity; discriminate. Qed.

End ObjMetadataFacts.

(** ** The runner loop *)

Section RunnerFacts.
Import Errors Taskrunner.

Lemma step_aborted (st : loopState) (i : Input) :
  abort st = true -> isTaskMsg i = false ->
  exists ops st',
    step st i = (ops, Continue st')
    /\ abort st' = true
    /\ currentTask st' = currentTask st
    /\ abortReason st' = abortReason st
    /\ Forall (fun o => isSend o = false) ops.
Proof.
  intros Ha Hi. destruct i as [[ev|]|msg| |obj]; simpl in *; try discriminate.
  - rewrite Ha. eexists _, _. by repeat split.
  - eexists _, _. by repeat split.
  - destruct (doneCh st); eexists _, _; (repeat split; [done..|]);
      [destruct (currentTask st); simpl; by repeat constructor | done].
  - eexists _, _. repeat split; [done..|].
    destruct (workerEvent _ _); by repeat constructor.
Qed.

Lemma loop_aborted (st : loopState) (mid : list Input) (msg : TaskResult)
    (sched : list Input) :
  abort st = true -> forallb (fun i => negb (isTaskMsg i)) mid = true ->
  exists ops,
    loop st (mid ++ TaskMsg msg :: sched)
    = (ops ++ [ClearTimeout (currentTask st)], Returned (abortResult st msg))
    /\ Forall (fun o => isSend o = false) ops.
Proof.
  revert st. induction mid as [|i mid IH]; intros st Ha Hmid.
  - exists []. split; [|constructor]. unfold abortResult. simpl.
    destruct (Err_ msg); [done|]. by rewrite Ha.
  - simpl in Hmid. apply andb_prop in Hmid as [Hi Hmid].
    apply negb_true_iff in Hi.
    destruct (step_aborted st i Ha Hi) as (ops & st' & Hs & Ha' & Hc & Hr & Hq).
    destruct (IH st' Ha' Hmid) as (ops' & Hl & Hq').
    exists (ops ++ ops'). split; [|by apply Forall_app].
    change ((i :: mid) ++ TaskMsg msg :: sched)
      with (i :: (mid ++ TaskMsg msg :: sched)).
    cbn [loop]. rewrite Hs, Hl, Hc.
    unfold abortResult. rewrite Hr. by rewrite app_assoc.
Qed.

Lemma step_consistent (st st' : loopState) (i : Input) (ops : list Op) :
  consistent st -> step st i = (ops, Continue st') -> consistent st'.
Proof.
  unfold consistent. intros Hc.
  destruct i as [[ev|]|msg| |obj]; simpl.
  - destruct (abort st) eqn:Ha; [intros [= _ <-]; by rewrite Ha|].
    case_bool_decide.
    + intros [= _ <-]. done.
    + destruct (Kstatus.Resource ev); [|done]. intros [= _ <-]. simpl. by rewrite Ha.
  - by intros [= _ <-].
  - destruct (Err_ msg); [done|]. destruct (abort st) eqn:Ha; [done|].
    destruct (nextTask _ _) as [ops' [[t rest]|]]; [|done].
    intros [= _ <-]. simpl. by rewrite Ha.
  - destruct (doneCh st) eqn:Hd; intros [= _ <-]; [by simpl|].
    intros Ha. destruct (Hc Ha). done.
  - by intros [= _ <-].
Qed.

Lemma loop_blocked_consistent (st st' : loopState) (sched : list Input)
    (ops : list Op) :
  consistent st -> loop st sched = (ops, Blocked st') -> consistent st'.
Proof.
  revert st ops. induction sched as [|i sched IH]; intros st ops Hc; simpl.
  - by intros [= _ <-].
  - destruct (step st i) as [ops1 [st1|err|]] eqn:Hs; [|done..].
    destruct (loop st1 sched) as [ops2 r] eqn:Hl. intros [= _ ->].
    eapply IH; [|exact Hl]. eapply step_consistent; [exact Hc|exact Hs].
Qed.

(** The loop over a schedule that leaves it blocked, then over more. *)
(** One turn of the loop, then the rest of the schedule. *)
Lemma loop_cons (st : loopState) (i : Input) (sched : list Input) :
  loop st (i :: sched)
  = match step st i with
    | (ops, Continue st') => (ops ++ (loop st' sched).1, (loop st' sched).2)
    | (ops, Return err) => (ops, Returned err)
    | (ops, Panic) => (ops, Panicked)
    end.
Proof.
  simpl. destruct (step st i) as [ops [st'|err|]]; try done.
  by destruct (loop st' sched).
Qed.

Lemma loop_app (st st' : loopState) (pre rest : list Input) (ops : list Op) :
  loop st pre = (ops, Blocked st') ->
  loop st (pre ++ rest) = (ops ++ (loop st' rest).1, (loop st' rest).2).
Proof.
  revert st ops. induction pre as [|i pre IH]; intros st ops; simpl.
  - intros [= <- <-]. by destruct (loop st rest).
  - destruct (step st i) as [ops1 [st1|err|]] eqn:Hs; [|done..].
    destruct (loop st1 pre) as [ops2 r] eqn:Hl. intros [= <- ->].
    rewrite (IH _ _ Hl). by rewrite app_assoc.
Qed.

Lemma run_app (c : gmap Object.ObjMetadata Kstatus.Status) (q : list Task)
    (st' : loopState) (pre rest : list Input) (ops : list Op) :
  run c q pre = (ops, Blocked st') ->
  run c q (pre ++ rest) = (ops ++ (loop st' rest).1, (loop st' rest).2)
  /\ consistent st'.
Proof.
  unfold run. destruct (nextTask c q) as [ops0 [[t tl]|]]; [|done].
  destruct (loop _ pre) as [ops1 r] eqn:Hl. intros [= <- ->].
  rewrite (loop_app _ _ _ _ _ Hl). split; [by rewrite app_assoc|].
  eapply loop_blocked_consistent; [|exact Hl]. done.
Qed.

Lemma nextTask_started (c : gmap Object.ObjMetadata Kstatus.Status)
    (q : list Task) :
  match nextTask c q with
  | (ops, None) => q = [] /\ ops = []
  | (ops, Some (t, rest)) => q = t :: rest /\ started ops = [t]
  end.
Proof.
  destruct q as [|t rest]; simpl; [done|].
  destruct t; simpl; try done. by destruct (conditionMet _ _ _).
Qed.

Lemma started_app (a b : list Op) : started (a ++ b) = started a ++ started b.
Proof. apply omap_app. Qed.

Lemma started_completeIfWaitTask (t : Task) : started (completeIfWaitTask t) = [].
Proof. by destruct t. Qed.

(** The loop starts the tasks of the queue in order and nothing else. *)
Lemma loop_started_prefix (st : loopState) (sched : list Input) :
  started (loop st sched).1 `prefix_of` taskQueue st.
Proof.
  revert st. induction sched as [|i sched IH]; intros st; simpl.
  - apply prefix_nil.
  - destruct i as [[ev|]|msg| |obj]; simpl.
    + destruct (abort st); [|case_bool_decide; [|destruct (Kstatus.Resource ev)]].
      * specialize (IH st). by destruct (loop st sched).
      * specialize (IH (set_abort st (Some (PollingFailed (Kstatus.Error ev))))).
        destruct (loop _ sched). simpl in *.
        by rewrite started_app, started_completeIfWaitTask.
      * specialize (IH (set_collector st
          (resourceStatus (collector st) (Kstatus.Identifier r) (Kstatus.Status_ r)))).
        destruct (loop _ sched). simpl in *.
        destruct (currentTask st); try done.
        by destruct (conditionMet _ _ _).
      * apply prefix_nil.
    + specialize (IH st). by destruct (loop st sched).
    + destruct (Err_ msg); [apply prefix_nil|].
      destruct (abort st); [apply prefix_nil|].
      pose proof (nextTask_started (collector st) (taskQueue st)) as Hn.
      destruct (nextTask _ _) as [ops' [[t rest]|]].
      * destruct Hn as [Hq Hst]. specialize (IH (set_task st t rest)).
        destruct (loop _ sched). simpl in *.
        rewrite started_app, Hst, Hq. by apply prefix_cons.
      * destruct Hn as [_ ->]. apply prefix_nil.
    + destruct (doneCh st).
      * specialize (IH (set_abort (set_doneCh_nil st) (abortReason st))).
        destruct (loop _ sched). simpl in *.
        by rewrite started_app, started_completeIfWaitTask.
      * specialize (IH st). by destruct (loop st sched).
    + specialize (IH st). destruct (loop st sched). simpl in *.
      rewrite started_app. by destruct (workerEvent _ _).
Qed.

Lemma run_started_prefix (c : gmap Object.ObjMetadata Kstatus.Status)
    (q : list Task) (sched : list Input) :
  started (run c q sched).1 `prefix_of` q.
Proof.
  unfold run. pose proof (nextTask_started c q) as Hn.
  destruct (nextTask c q) as [ops [[t rest]|]].
  - destruct Hn as [-> Hst].
    pose proof (loop_started_prefix
      {| currentTask := t; taskQueue := rest; abort := false;
         abortReason := None; doneCh := true; collector := c |} sched) as Hp.
    destruct (loop _ sched). simpl in *.
    rewrite started_app, Hst. by apply prefix_cons.
  - destruct Hn as [_ ->]. apply prefix_nil.
Qed.



Lemma bodyOp_completeIfWaitTask (t : Task) :
  forallb bodyOp (completeIfWaitTask t) = true.
Proof. by destruct t. Qed.

Lemma bodyOp_nextTask (c : gmap Object.ObjMetadata Kstatus.Status) (q : list Task) :
  forallb bodyOp (nextTask c q).1 = true.
Proof.
  destruct q as [|t rest]; [done|]. destruct t; try done.
  simpl. by destruct (conditionMet _ _ _).
Qed.

Lemma nextTask_plain (c : gmap Object.ObjMetadata Kstatus.Status) (q : list Task)
    (ops : list Op) (t : Task) (rest : list Task) :
  forallb plain q = true -> nextTask c q = (ops, Some (t, rest)) ->
  forallb plain (t :: rest) = true.
Proof.
  pose proof (nextTask_started c q) as Hn. intros Hp Heq. rewrite Heq in Hn.
  destruct Hn as [-> _]. done.
Qed.

(** Between its start and its return the loop sends no [Error] event and
    does not close the channel, and neither do the workers of the tasks of
    a queue without [Error] events. *)
Lemma loop_body (st : loopState) (sched : list Input) :
  forallb plain (currentTask st :: taskQueue st) = true ->
  forallb bodyOp (loop st sched).1 = true.
Proof.
  revert st. induction sched as [|i sched IH]; intros st Hp; simpl; [done|].
  destruct (step st i) as [ops [st'|err|]] eqn:Hs.
  - assert (forallb bodyOp ops = true
            /\ forallb plain (currentTask st' :: taskQueue st') = true) as [Ho Hp'].
    { destruct i as [[ev|]|msg| |obj]; simpl in Hs.
      - destruct (abort st); [by injection Hs as <- <-|].
        case_bool_decide.
        + injection Hs as <- <-. split; [apply bodyOp_completeIfWaitTask|done].
        + destruct (Kstatus.Resource ev); [|done]. injection Hs as <- <-.
          split; [|done]. simpl. destruct (currentTask st); try done.
          destruct (conditionMet _ _ _); done.
      - by injection Hs as <- <-.
      - destruct (Err_ msg); [done|]. destruct (abort st); [done|].
        pose proof (bodyOp_nextTask (collector st) (taskQueue st)) as Hb.
        destruct (nextTask _ _) as [ops' [[t rest]|]] eqn:Hn; [|done].
        injection Hs as <- <-. split; [done|].
        simpl in Hp. apply andb_prop in Hp as [_ Hp].
        exact (nextTask_plain _ _ _ _ _ Hp Hn).
      - destruct (doneCh st); injection Hs as <- <-; [|done].
        split; [apply bodyOp_completeIfWaitTask|done].
      - injection Hs as <- <-. split; [|done].
        simpl in Hp. apply andb_prop in Hp as [Hp _].
        destruct (currentTask st); simpl in *; try done. by rewrite Hp. }
    specialize (IH st' Hp'). destruct (loop st' sched). simpl in *.
    rewrite forallb_app. by rewrite Ho, IH.
  - simpl. destruct i as [[ev|]|msg| |obj]; simpl in Hs.
    + destruct (abort st); [done|]. case_bool_decide; [done|].
      by destruct (Kstatus.Resource ev).
    + done.
    + destruct (Err_ msg); [by injection Hs as <- _|].
      destruct (abort st); [by injection Hs as <- _|].
      pose proof (bodyOp_nextTask (collector st) (taskQueue st)) as Hb.
      destruct (nextTask _ _) as [ops' [[t rest]|]]; [done|].
      by injection Hs as <- _.
    + by destruct (doneCh st).
    + done.
  - simpl. destruct i as [[ev|]|msg| |obj]; simpl in Hs.
    + destruct (abort st); [done|]. case_bool_decide; [done|].
      destruct (Kstatus.Resource ev); [done|]. by injection Hs as <-.
    + done.
    + destruct (Err_ msg); [done|]. destruct (abort st); [done|].
      by destruct (nextTask _ _) as [ops' [[t rest]|]].
    + by destruct (doneCh st).
    + done.
Qed.




(** C10.  When the loop is aborting and the current task posts its
    result, the loop returns the error of the task if it has one, and the
    stored abort reason only if it has none. *)
Theorem task_error_before_abort_reason (st : loopState) (msg : TaskResult)
    (sched : list Input) :
  abort st = true ->
  loop st (TaskMsg msg :: sched)
  = ([ClearTimeout (currentTask st)],
     Returned (match Err_ msg with
               | Some err => Some err
               | None => abortReason st
               end)).
Proof.
  intros Ha. simpl. destruct (Err_ msg); [done|]. by rewrite Ha.
Qed.

Lemma task_error_before_abort_reason_witness :
  let st := {| currentTask := ApplyTask []; taskQueue := [];
               abort := true;
               abortReason := Some (PollingFailed (Some (Foreign "connection refused")));
               doneCh := true; collector := ∅ |} in
  loop st [TaskMsg (Fixtures.failed (Foreign "apply failed"))]
  = ([ClearTimeout (ApplyTask [])], Returned (Some (Foreign "apply failed")))
  /\ loop st [TaskMsg Fixtures.ok]
     = ([ClearTimeout (ApplyTask [])],
        Returned (Some (PollingFailed (Some (Foreign "connection refused"))))).
Proof.
  intros st. split.
  - apply (task_error_before_abort_reason st
             (Fixtures.failed (Foreign "apply failed")) []). reflexivity.
  - apply (task_error_before_abort_reason st Fixtures.ok []). reflexivity.
Defined.

(** C5, as amended.  When the status channel delivers an error
    observation to a loop that is not yet aborting, the loop sets its abort
    state with a reason made from the error of the poller and calls
    [complete] on the current task if and only if it is a Wait task; from
    then until the current task posts its result the loop sends nothing on
    the event channel, whatever else it receives, and then it returns the
    error of the task or, when the task has none, the abort reason. *)
Theorem poller_error_aborts (st : loopState) (statusEvent : Kstatus.Event)
    (mid : list Input) (msg : TaskResult) (sched : list Input) :
  abort st = false ->
  Kstatus.EventType_ statusEvent = Kstatus.ErrorEvent ->
  forallb (fun i => negb (isTaskMsg i)) mid = true ->
  let reason := PollingFailed (Kstatus.Error statusEvent) in
  let completes :=
    if isWaitTask (currentTask st) then [Complete (currentTask st)] else [] in
  step st (StatusRecv (Some statusEvent))
  = (completes, Continue (set_abort st (Some reason)))
  /\ exists ops,
       loop st (StatusRecv (Some statusEvent) :: mid ++ TaskMsg msg :: sched)
       = (completes ++ ops ++ [ClearTimeout (currentTask st)],
          Returned (match Err_ msg with
                    | Some err => Some err
                    | None => Some reason
                    end))
       /\ Forall (fun o => isSend o = false) ops.
Proof.
  intros Ha He Hmid reason completes.
  assert (step st (StatusRecv (Some statusEvent))
          = (completes, Continue (set_abort st (Some reason)))) as Hs.
  { simpl. rewrite Ha, bool_decide_eq_true_2 by done.
    subst completes. by destruct (currentTask st). }
  split; [exact Hs|].
  destruct (loop_aborted (set_abort st (Some reason)) mid msg sched eq_refl Hmid)
    as (ops & Hl & Hq).
  exists ops. split; [|exact Hq].
  cbn [loop]. rewrite Hs, Hl. reflexivity.
Qed.

Lemma poller_error_aborts_witness :
  let w := WaitTask [Fixtures.fooId] AllCurrent 30 in
  let st := {| currentTask := w; taskQueue := []; abort := false;
               abortReason := None; doneCh := true; collector := ∅ |} in
  exists ops,
    loop st [StatusRecv (Some Fixtures.pollError);
             StatusRecv (Some (Fixtures.update Fixtures.fooId Kstatus.CurrentStatus));
             TaskMsg Fixtures.ok]
    = ([Complete w] ++ ops ++ [ClearTimeout w],
       Returned (Some (PollingFailed (Some (Foreign "connection refused")))))
    /\ Forall (fun o => isSend o = false) ops.
Proof.
  intros w st.
  exact (proj2 (poller_error_aborts st Fixtures.pollError
    [StatusRecv (Some (Fixtures.update Fixtures.fooId Kstatus.CurrentStatus))]
    Fixtures.ok [] eq_refl eq_refl eq_refl)).
Defined.

(** C5 as stated fails: an error observation that arrives after the
    context was cancelled is dropped.  The abort reason stays empty,
    [complete] is not called for it, and once the task has posted its
    result the loop returns [nil], not a reason made from the error of the
    poller. *)
Lemma poller_error_after_cancel :
  let w := WaitTask [Fixtures.fooId] AllCurrent 30 in
  let st := {| currentTask := w; taskQueue := []; abort := true;
               abortReason := None; doneCh := false; collector := ∅ |} in
  run ∅ [w] [CtxDone] = ([Start w; Complete w], Blocked st)
  /\ step st (StatusRecv (Some Fixtures.pollError)) = ([], Continue st)
  /\ run ∅ [w] [CtxDone; StatusRecv (Some Fixtures.pollError); TaskMsg Fixtures.ok]
     = ([Start w; Complete w; ClearTimeout w], Returned None).
Proof. repeat split. Qed.

End RunnerFacts.

(** ** The applier *)

Section ApplierFacts.
Import Resource Errors Taskrunner Apply.
Context {C : Collaborators}.

Lemma splitInfos_filter (infos : list Info) :
  splitInfos infos
  = (List.filter (fun info => negb (isGrouping info)) infos,
     List.filter isGrouping infos).
Proof.
  unfold splitInfos.
  assert (forall l gs rs,
    fold_left
      (fun acc info =>
         let '(groupingObjectTemplates, resources) := acc in
         if isGrouping info
         then (groupingObjectTemplates ++ [info], resources)
         else (groupingObjectTemplates, resources ++ [info])) l (gs, rs)
    = (gs ++ List.filter isGrouping l,
       rs ++ List.filter (fun info => negb (isGrouping info)) l)) as Hfold.
  { induction l as [|info l IH]; intros gs rs; simpl.
    - by rewrite !app_nil_r.
    - destruct (isGrouping info); simpl; rewrite IH; by rewrite <- !app_assoc. }
  by rewrite Hfold.
Qed.

(** C2.  The queue is the Apply task over all infos and the
    ApplyCompleted event; then, exactly when wait is requested, the Wait
    task with condition AllCurrent and the timeout of the options and the
    StatusCompleted event; then, exactly when prune is not suppressed, the
    Prune task and the PruneCompleted event.  The runner only takes tasks
    from it: the tasks it starts are a prefix of the queue, in order. *)
Theorem buildTaskQueue_order (a : Applier) (infos : list Info)
    (identifiers : list Object.ObjMetadata) :
  buildTaskQueue a infos identifiers
  = [ApplyTask infos; SendEventTask applyCompleted]
    ++ (if wait (StatusOptions_ a)
        then [WaitTask identifiers AllCurrent (Apply.Timeout (StatusOptions_ a));
              SendEventTask statusCompleted]
        else [])
    ++ (if NoPrune a then []
        else [PruneTask infos; SendEventTask pruneCompleted])
  /\ forall c sched,
       started (run c (buildTaskQueue a infos identifiers) sched).1
         `prefix_of` buildTaskQueue a infos identifiers.
Proof.
  split; [|intros c sched; apply run_started_prefix].
  unfold buildTaskQueue. by destruct (wait _), (NoPrune a).
Qed.

Lemma buildTaskQueue_plain (a : Applier) (infos : list Info)
    (identifiers : list Object.ObjMetadata) :
  forallb plain (buildTaskQueue a infos identifiers) = true.
Proof. unfold buildTaskQueue. by destruct (wait _), (NoPrune a). Qed.


Lemma readAndPrepareObjects_Ok (getObjects : result (list Info)) (result : list Info) :
  readAndPrepareObjects getObjects = Ok result ->
  exists infos got groupingObject,
    getObjects = Ok infos
    /\ List.filter isGrouping infos = [got]
    /\ CreateGroupingObj got (List.filter (fun info => negb (isGrouping info)) infos)
       = Ok groupingObject
    /\ result = groupingObject
                :: sortResourceInfos
                     (List.filter (fun info => negb (isGrouping info)) infos).
Proof.
  unfold readAndPrepareObjects. destruct getObjects as [infos|err]; [|done].
  rewrite splitInfos_filter.
  destruct (List.filter isGrouping infos) as [|got [|got' gots]] eqn:Hg;
    simpl; try done.
  destruct (CreateGroupingObj got _) as [groupingObject|err] eqn:Hc; [|done].
  destruct (validateNamespace _); simpl; [|done].
  intros [= <-]. by exists infos, got, groupingObject.
Qed.

(** C3.  When the manifests hold no grouping object,
    [readAndPrepareObjects] fails with [NoGroupingObjError]; when they hold
    more than one, it fails with a [MultipleGroupingObjError] that carries
    these templates.  Whenever it fails, [Run] sends one [Error] event,
    starts no task and sends no Apply event, and closes the channel.  When
    it succeeds the slice it returns starts with the grouping object made
    from the one template. *)
Theorem readAndPrepareObjects_grouping (a : Applier) (infos : list Info)
    (sched : list Input) :
  (length (List.filter isGrouping infos) = O ->
   readAndPrepareObjects (Ok infos) = Err NoGroupingObjError)
  /\ ((1 < length (List.filter isGrouping infos))%nat ->
      readAndPrepareObjects (Ok infos)
      = Err (MultipleGroupingObjError (List.filter isGrouping infos)))
  /\ (forall err,
        readAndPrepareObjects (Ok infos) = Err err ->
        Apply.Run a (Ok infos) sched = [Send (readError err); Close]
        /\ events (Apply.Run a (Ok infos) sched) = [readError err]
        /\ forallb (fun e => negb (Event.isApply e))
             (events (Apply.Run a (Ok infos) sched)) = true)
  /\ (forall result,
        readAndPrepareObjects (Ok infos) = Ok result ->
        exists got groupingObject,
          List.filter isGrouping infos = [got]
          /\ CreateGroupingObj got
               (List.filter (fun info => negb (isGrouping info)) infos)
             = Ok groupingObject
          /\ result !! O = Some groupingObject).
Proof.
  split; [|split; [|split]].
  - intros Hlen. unfold readAndPrepareObjects. rewrite splitInfos_filter.
    by rewrite Hlen.
  - intros Hlen. unfold readAndPrepareObjects. rewrite splitInfos_filter.
    destruct (List.filter isGrouping infos) as [|g0 [|g1 gots]]; simpl in *;
      [lia|lia|done].
  - intros err Herr. unfold Apply.Run. by rewrite Herr.
  - intros result Hok.
    destruct (readAndPrepareObjects_Ok _ _ Hok)
      as (infos' & got & groupingObject & [= <-] & Hg & Hc & ->).
    by exists got, groupingObject.
Qed.



(** C9, as amended.  When [readAndPrepareObjects] succeeds the first event
    of the run is the [Init] event; when it fails the only event of the run
    is an [Error] event, which no [Init] event precedes. *)
Theorem init_first (a : Applier) (getObjects : result (list Info))
    (sched : list Input) :
  match readAndPrepareObjects getObjects with
  | Ok infos =>
      exists rest,
        events (Apply.Run a getObjects sched)
        = initEvent (infosToObjMetas infos) :: rest
  | Err err => events (Apply.Run a getObjects sched) = [readError err]
  end.
Proof.
  unfold Apply.Run. destruct (readAndPrepareObjects getObjects) as [infos|err]; [|done].
  eexists. reflexivity.
Qed.










(** C1, as amended.  When the context is cancelled while a task is in
    flight and the loop is not yet aborting, the loop sets its abort state
    without a reason, sets the done channel to [nil], calls [complete] on
    the current task if and only if it is a Wait task and, until the task
    posts its result, sends nothing on the event channel.  It then returns
    what the task posted, [nil] for a task without error and never the
    error of the context.  [Run] sends an [Error] event only for an error
    of the task, and closes the channel. *)
Theorem cancel_returns_task_result (a : Applier) (getObjects : result (list Info))
    (infos : list Info) (pre : list Input) (ops0 : list Op) (st : loopState)
    (mid : list Input) (msg : TaskResult) (sched : list Input) :
  readAndPrepareObjects getObjects = Ok infos ->
  run (newResourceStatusCollector (infosToObjMetas infos))
      (buildTaskQueue a infos (infosToObjMetas infos)) pre
  = (ops0, Blocked st) ->
  abort st = false ->
  forallb (fun i => negb (isTaskMsg i)) mid = true ->
  let completes :=
    if isWaitTask (currentTask st) then [Complete (currentTask st)] else [] in
  step st CtxDone = (completes, Continue (set_abort (set_doneCh_nil st) None))
  /\ exists ops,
       Forall (fun o => isSend o = false) ops
       /\ run (newResourceStatusCollector (infosToObjMetas infos))
            (buildTaskQueue a infos (infosToObjMetas infos))
            (pre ++ CtxDone :: mid ++ TaskMsg msg :: sched)
          = (ops0 ++ completes ++ ops ++ [ClearTimeout (currentTask st)],
             Returned (Err_ msg))
       /\ Apply.Run a getObjects (pre ++ CtxDone :: mid ++ TaskMsg msg :: sched)
          = Send (initEvent (infosToObjMetas infos))
            :: ops0 ++ completes ++ ops
               ++ [ClearTimeout (currentTask st); CancelPoller; DrainStatusChannel]
               ++ match Err_ msg with
                  | Some err => [Send (Event.ErrorType err)]
                  | None => []
                  end
               ++ [Close].
Proof.
  intros Hok Hpre Ha Hmid completes.
  destruct (run_app _ _ _ _ (CtxDone :: mid ++ TaskMsg msg :: sched) _ Hpre)
    as [Hrun Hcons].
  destruct (Hcons Ha) as [Hreason Hdone].
  assert (step st CtxDone = (completes, Continue (set_abort (set_doneCh_nil st) None)))
    as Hstep.
  { simpl. rewrite Hdone, Hreason. subst completes. by destruct (currentTask st). }
  split; [exact Hstep|].
  destruct (loop_aborted (set_abort (set_doneCh_nil st) None) mid msg sched
              eq_refl Hmid) as (ops & Hl & Hq).
  assert (abortResult (set_abort (set_doneCh_nil st) None) msg = Err_ msg) as Hres.
  { unfold abortResult. by destruct (Err_ msg). }
  rewrite Hres in Hl. simpl in Hl.
  assert (loop st (CtxDone :: mid ++ TaskMsg msg :: sched)
          = (completes ++ ops ++ [ClearTimeout (currentTask st)], Returned (Err_ msg)))
    as Hloop.
  { cbn [loop]. by rewrite Hstep, Hl. }
  rewrite Hloop in Hrun. simpl in Hrun.
  exists ops. split; [exact Hq|]. split; [exact Hrun|].
  unfold Apply.Run, Taskrunner.Run. rewrite Hok, Hrun.
  destruct (Err_ msg); simpl; by rewrite <- !app_assoc.
Qed.

End ApplierFacts.

(** ** The properties on concrete runs *)

Section Scenarios.
Import Resource Errors Taskrunner Apply Fixtures.

Lemma readAndPrepareObjects_grouping_witness :
  readAndPrepareObjects (C := labelled) (Ok [deployment]) = Err NoGroupingObjError
  /\ readAndPrepareObjects (C := labelled)
       (Ok [groupingTemplate; deployment; groupingTemplate2])
     = Err (MultipleGroupingObjError [groupingTemplate; groupingTemplate2])
  /\ Apply.Run (C := labelled) applyOnly (Ok [deployment]) []
     = [Send (readError NoGroupingObjError); Close]
  /\ exists got groupingObject,
       List.filter (isGrouping (C := labelled)) [deployment; groupingTemplate] = [got]
       /\ CreateGroupingObj (Collaborators := labelled) got
            (List.filter (fun info => negb (isGrouping (C := labelled) info))
               [deployment; groupingTemplate])
          = Ok groupingObject
       /\ applied !! O = Some groupingObject.
Proof.
  split; [|split; [|split]].
  - apply (proj1 (readAndPrepareObjects_grouping (C := labelled)
                    applyOnly [deployment] [])).
    reflexivity.
  - apply (proj1 (proj2 (readAndPrepareObjects_grouping (C := labelled) applyOnly
                           [groupingTemplate; deployment; groupingTemplate2] []))).
    vm_compute. lia.
  - apply (proj1 (proj2 (proj2 (readAndPrepareObjects_grouping (C := labelled)
                                  applyOnly [deployment] [])))).
    reflexivity.
  - apply (proj2 (proj2 (proj2 (readAndPrepareObjects_grouping (C := labelled)
                                  applyOnly [deployment; groupingTemplate] [])))).
    reflexivity.
Defined.



(** C9 as stated fails: for manifests without a grouping object the run
    sends one event, an [Error] event, and it is not an [Init] event. *)
Lemma error_without_init :
  events (Apply.Run (C := labelled) applyOnly (Ok [deployment]) [])
  = [readError NoGroupingObjError]
  /\ Event.isInit (readError NoGroupingObjError) = false.
Proof. split; reflexivity. Qed.



(** Schedules in which the worker of a SendEvent task writes nothing, or
    writes twice, before the task ends are not those of [emitsOnce]. *)
Example emitsOnce_silent :
  emitsOnce_run (newResourceStatusCollector identifiers)
    (buildTaskQueue waitAndPrune applied identifiers)
    [TaskMsg ok; TaskMsg ok] = false.
Proof. reflexivity. Qed.

Example emitsOnce_twice :
  emitsOnce_run (newResourceStatusCollector identifiers)
    (buildTaskQueue waitAndPrune applied identifiers)
    [TaskMsg ok; WorkerSend None; WorkerSend None; TaskMsg ok] = false.
Proof. reflexivity. Qed.

Lemma cancel_returns_task_result_witness :
  exists ops,
    Forall (fun o => isSend o = false) ops
    /\ Apply.Run (C := labelled) waitAndPrune (Ok [deployment; groupingTemplate])
         ([TaskMsg ok; WorkerSend None; TaskMsg ok]
          ++ CtxDone :: [StatusRecv (Some (update fooId Kstatus.InProgressStatus))]
          ++ TaskMsg ok :: [])
       = Send (initEvent identifiers)
         :: [Start applyTask; ClearTimeout applyTask;
             Start (SendEventTask applyCompleted); TaskSend applyCompleted;
             ClearTimeout (SendEventTask applyCompleted); Start waitTask]
            ++ [Complete waitTask] ++ ops
            ++ [ClearTimeout waitTask; CancelPoller; DrainStatusChannel]
            ++ [] ++ [Close].
Proof.
  destruct (cancel_returns_task_result (C := labelled) waitAndPrune
              (Ok [deployment; groupingTemplate]) applied
              [TaskMsg ok; WorkerSend None; TaskMsg ok]
              [Start applyTask; ClearTimeout applyTask;
               Start (SendEventTask applyCompleted); TaskSend applyCompleted;
               ClearTimeout (SendEventTask applyCompleted); Start waitTask]
              waiting
              [StatusRecv (Some (update fooId Kstatus.InProgressStatus))]
              ok [] eq_refl eq_refl eq_refl eq_refl)
    as [_ (ops & Hq & _ & Hrun)].
  exists ops. split; [exact Hq | exact Hrun].
Defined.

(** C1 as stated fails: the context is cancelled while the Wait task is
    in flight.  The loop calls [complete] on it and, when its result
    arrives, returns [nil], not the error of the context; [Run] closes the
    channel without an [Error] event. *)
Lemma cancel_returns_nil :
  run (newResourceStatusCollector identifiers)
      (buildTaskQueue waitAndPrune applied identifiers)
      [TaskMsg ok; WorkerSend None; TaskMsg ok; CtxDone; TaskMsg ok]
  = ([Start applyTask; ClearTimeout applyTask;
      Start (SendEventTask applyCompleted); TaskSend applyCompleted;
      ClearTimeout (SendEventTask applyCompleted); Start waitTask;
      Complete waitTask; ClearTimeout waitTask],
     Returned None)
  /\ Returned None <> Returned (Some Canceled)
  /\ events (Apply.Run (C := labelled) waitAndPrune (Ok [deployment; groupingTemplate])
               [TaskMsg ok; WorkerSend None; TaskMsg ok; CtxDone; TaskMsg ok])
     = [initEvent identifiers; applyCompleted].
Proof. repeat split. discriminate. Qed.

End Scenarios.

(** * Further properties *)

(** ** The runner loop *)

Section RunnerExtras.
Import Errors Taskrunner RunnerSpec.

Lemma cleared_app (a b : list Op) : cleared (a ++ b) = cleared a ++ cleared b.
Proof. apply omap_app. Qed.

Lemma completed_app (a b : list Op) : completed (a ++ b) = completed a ++ completed b.
Proof. apply omap_app. Qed.

Lemma forwarded_app (a b : list Op) : forwarded (a ++ b) = forwarded a ++ forwarded b.
Proof. apply omap_app. Qed.

Lemma cleared_completeIfWaitTask (t : Task) : cleared (completeIfWaitTask t) = [].
Proof. by destruct t. Qed.

Lemma forwarded_completeIfWaitTask (t : Task) : forwarded (completeIfWaitTask t) = [].
Proof. by destruct t. Qed.

(** What a turn that goes back to [select] has done: nothing to the queue,
    or the current task has ended well and the next one is started. *)
Lemma step_Continue (st st' : loopState) (i : Input) (ops : list Op) :
  step st i = (ops, Continue st') ->
  (currentTask st' = currentTask st /\ taskQueue st' = taskQueue st
   /\ started ops = [] /\ cleared ops = [] /\ isTaskMsg i = false
   /\ (abort st = true -> abort st' = true))
  \/ (exists msg t rest ops',
        i = TaskMsg msg /\ Err_ msg = None /\ abort st = false
        /\ nextTask (collector st) (taskQueue st) = (ops', Some (t, rest))
        /\ ops = ClearTimeout (currentTask st) :: ops'
        /\ st' = set_task st t rest).
Proof.
  destruct i as [[ev|]|msg| |obj]; simpl.
  - destruct (abort st) eqn:Ha; [intros [= <- <-]; left; by rewrite Ha|].
    case_bool_decide.
    + intros [= <- <-]. left.
      by rewrite started_completeIfWaitTask, cleared_completeIfWaitTask.
    + destruct (Kstatus.Resource ev); [|done]. intros [= <- <-]. left.
      simpl. rewrite Ha.
      assert (forall l, l = [] \/ l = completeIfWaitTask (currentTask st) ->
                started l = [] /\ cleared l = []) as Hl.
      { intros l [->| ->]; [done|].
        by rewrite started_completeIfWaitTask, cleared_completeIfWaitTask. }
      match goal with
      | |- context [started ?l] => destruct (Hl l) as [-> ->]
      end; [|done].
      destruct (currentTask st); auto. destruct (conditionMet _ _ _); auto.
  - intros [= <- <-]. by left.
  - destruct (Err_ msg) eqn:He; [done|]. destruct (abort st) eqn:Ha; [done|].
    destruct (nextTask _ _) as [ops' [[t rest]|]] eqn:Hn; [|done].
    intros [= <- <-]. right. by exists msg, t, rest, ops'.
  - destruct (doneCh st); intros [= <- <-]; left; [|done].
    by rewrite started_completeIfWaitTask, cleared_completeIfWaitTask.
  - intros [= <- <-]. left. by destruct (workerEvent _ _).
Qed.

(** What a turn that returns has done: the current task has posted its
    result. *)
Lemma step_Return (st : loopState) (i : Input) (ops : list Op) (err : option error) :
  step st i = (ops, Return err) ->
  exists msg,
    i = TaskMsg msg /\ ops = [ClearTimeout (currentTask st)]
    /\ ((exists e, Err_ msg = Some e /\ err = Some e)
        \/ (Err_ msg = None /\ abort st = true /\ err = abortReason st)
        \/ (Err_ msg = None /\ abort st = false /\ taskQueue st = [] /\ err = None)).
Proof.
  destruct i as [[ev|]|msg| |obj]; simpl.
  - destruct (abort st); [done|]. case_bool_decide; [done|].
    by destruct (Kstatus.Resource ev).
  - done.
  - destruct (Err_ msg) as [e|] eqn:He.
    + intros [= <- <-]. exists msg. repeat split. left. by exists e.
    + destruct (abort st) eqn:Ha.
      * intros [= <- <-]. exists msg. repeat split. right. by left.
      * pose proof (nextTask_started (collector st) (taskQueue st)) as Hn.
        destruct (nextTask _ _) as [ops' [[t rest]|]]; [done|].
        destruct Hn as [Hq ->]. intros [= <- <-]. exists msg.
        repeat split. right. by right.
  - by destruct (doneCh st).
  - done.
Qed.

(** A turn panics only on an observation without a resource. *)
Lemma step_Panic (st : loopState) (i : Input) (ops : list Op) :
  step st i = (ops, Panic) ->
  exists ev, i = StatusRecv (Some ev) /\ Kstatus.Resource ev = None
             /\ isErrorObservation ev = false /\ abort st = false
             /\ ops = [Send (Event.StatusType ev)].
Proof.
  destruct i as [[ev|]|msg| |obj]; simpl.
  - destruct (abort st); [done|].
    destruct (bool_decide (Kstatus.EventType_ ev = Kstatus.ErrorEvent)) eqn:He; [done|].
    destruct (Kstatus.Resource ev) eqn:Hr; [done|]. intros [= <-]. by exists ev.
  - done.
  - destruct (Err_ msg); [done|]. destruct (abort st); [done|].
    by destruct (nextTask _ _) as [ops' [[t rest]|]].
  - by destruct (doneCh st).
  - done.
Qed.

Lemma forwarded_no_send (ops : list Op) :
  Forall (fun o => isSend o = false) ops -> forwarded ops = [].
Proof.
  induction 1 as [|o ops Ho _ IH]; [done|]. simpl. by destruct o.
Qed.

(** A property of operation lists that every turn keeps holds of a run of
    the loop. *)
Lemma loop_ops_ind (P : list Op -> Prop) :
  P [] -> (forall a b, P a -> P b -> P (a ++ b)) ->
  (forall st i, P (step st i).1) ->
  forall st sched, P (loop st sched).1.
Proof.
  intros Hnil Happ Hstep st sched. revert st.
  induction sched as [|i sched IH]; intros st; [done|].
  rewrite loop_cons. specialize (Hstep st i).
  destruct (step st i) as [ops [st'|err|]]; simpl in *; auto.
Qed.

(** An aborting loop starts no task, forwards nothing and does not panic. *)
Lemma loop_aborted_quiet (st : loopState) (sched : list Input) :
  abort st = true ->
  started (loop st sched).1 = [] /\ forwarded (loop st sched).1 = []
  /\ (loop st sched).2 <> Panicked.
Proof.
  revert st. induction sched as [|i sched IH]; intros st Ha; [done|].
  rewrite loop_cons. destruct (step st i) as [ops [st'|err|]] eqn:Hs; simpl.
  - destruct (step_Continue _ _ _ _ Hs)
      as [(_ & _ & Hst & _ & Hi & Hab)|(msg & t & rest & ops' & _ & _ & Hf & _)];
      [|congruence].
    destruct (step_aborted st i Ha Hi) as (ops1 & st1 & Hs1 & _ & _ & _ & Hq).
    rewrite Hs in Hs1. injection Hs1 as <- <-.
    destruct (IH st' (Hab Ha)) as (IH1 & IH2 & IH3).
    rewrite started_app, forwarded_app, Hst, IH1, IH2, (forwarded_no_send _ Hq).
    done.
  - destruct (step_Return _ _ _ _ Hs) as (msg & _ & -> & _). done.
  - destruct (step_Panic _ _ _ Hs) as (ev & _ & _ & _ & Hf & _). congruence.
Qed.

(** A turn on a cancellation or on an error observation leaves the loop
    aborting. *)
Lemma step_aborts (st : loopState) (i : Input) :
  consistent st ->
  (i = CtxDone \/ exists ev, i = StatusRecv (Some ev) /\ isErrorObservation ev = true) ->
  exists ops st',
    step st i = (ops, Continue st') /\ abort st' = true
    /\ started ops = [] /\ forwarded ops = [].
Proof.
  intros Hc [-> | (ev & -> & He)]; simpl.
  - destruct (doneCh st) eqn:Hd.
    + eexists _, _. split; [done|].
      by rewrite started_completeIfWaitTask, forwarded_completeIfWaitTask.
    + exists [], st. repeat split.
      destruct (abort st) eqn:Ha; [done|]. destruct (Hc Ha). congruence.
  - destruct (abort st) eqn:Ha; [by exists [], st|].
    unfold isErrorObservation in He. rewrite He.
    eexists _, _. split; [done|].
    by rewrite started_completeIfWaitTask, forwarded_completeIfWaitTask.
Qed.

(** X1.  Once the context is cancelled, or the poller has reported an
    error, the runner starts no further task and forwards no further
    status event, whatever it receives afterwards. *)
Theorem nothing_started_after_abort
    (c : gmap Object.ObjMetadata Kstatus.Status) (q : list Task)
    (pre rest : list Input) (i : Input) (ops0 : list Op) (st : loopState) :
  run c q pre = (ops0, Blocked st) ->
  (i = CtxDone \/ exists ev, i = StatusRecv (Some ev) /\ isErrorObservation ev = true) ->
  started (run c q (pre ++ i :: rest)).1 = started ops0
  /\ forwarded (run c q (pre ++ i :: rest)).1 = forwarded ops0
  /\ (run c q (pre ++ i :: rest)).2 <> Panicked.
Proof.
  intros Hpre Hi.
  destruct (run_app _ _ _ _ (i :: rest) _ Hpre) as [-> Hc].
  destruct (step_aborts st i Hc Hi) as (ops & st' & Hs & Ha & Hst & Hf).
  rewrite loop_cons, Hs. cbn [fst snd].
  destruct (loop_aborted_quiet st' rest Ha) as (H1 & H2 & H3).
  by rewrite !started_app, !forwarded_app, Hst, Hf, H1, H2, !app_nil_r.
Qed.

(** The loop forwards observations in the order of their arrival. *)
Lemma loop_forwarded_prefix (st : loopState) (sched : list Input) :
  forwarded (loop st sched).1 `prefix_of` observed sched.
Proof.
  revert st. induction sched as [|i sched IH]; intros st; [done|].
  destruct (abort st) eqn:Ha.
  { destruct (loop_aborted_quiet st (i :: sched) Ha) as (_ & -> & _).
    apply prefix_nil. }
  rewrite loop_cons. destruct (step st i) as [ops [st'|err|]] eqn:Hs; simpl.
  - rewrite forwarded_app.
    destruct i as [[ev|]|msg| |obj]; simpl in Hs |- *.
    + rewrite Ha in Hs. unfold isErrorObservation. case_bool_decide.
      * injection Hs as <- <-.
        destruct (loop_aborted_quiet
          (set_abort st (Some (PollingFailed (Kstatus.Error ev)))) sched eq_refl)
          as (_ & -> & _).
        rewrite forwarded_completeIfWaitTask. apply prefix_nil.
      * destruct (Kstatus.Resource ev); [|done]. injection Hs as <- <-.
        simpl. assert (forall l, l = [] \/ l = completeIfWaitTask (currentTask st) ->
                         forwarded l = []) as Hl.
        { intros l [->| ->]; [done|apply forwarded_completeIfWaitTask]. }
        match goal with
        | |- context [forwarded ?l ++ _] => rewrite (Hl l)
        end; [apply prefix_cons, IH|].
        destruct (currentTask st); auto. destruct (conditionMet _ _ _); auto.
    + injection Hs as <- <-. apply IH.
    + destruct (step_Continue st st' (TaskMsg msg) ops Hs)
        as [(_ & _ & _ & _ & Hi & _)|(m & t & rest & ops' & _ & _ & _ & Hn & -> & ->)];
        [done|].
      pose proof (nextTask_started (collector st) (taskQueue st)) as Hq.
      rewrite Hn in Hq. simpl.
      assert (forwarded ops' = []) as ->; [|apply IH].
      revert Hn. destruct (taskQueue st) as [|t0 q0]; simpl; [done|].
      destruct t0; try by intros [= <- _ _].
      destruct (conditionMet _ _ _); by intros [= <- _ _].
    + destruct (doneCh st); injection Hs as <- <-; [|apply IH].
      rewrite forwarded_completeIfWaitTask. apply IH.
    + injection Hs as <- <-.
      assert (forwarded match workerEvent (currentTask st) obj with
                        | Some e => [TaskSend e]
                        | None => []
                        end = []) as -> by (by destruct (workerEvent _ _)).
      apply IH.
  - destruct (step_Return _ _ _ _ Hs) as (msg & -> & -> & _). apply prefix_nil.
  - destruct (step_Panic _ _ _ Hs) as (ev & -> & _ & He & _ & ->).
    simpl. rewrite He. by apply prefix_cons, prefix_nil.
Qed.

Lemma forwarded_nextTask (c : gmap Object.ObjMetadata Kstatus.Status) (q : list Task) :
  forwarded (nextTask c q).1 = [].
Proof.
  destruct q as [|t q]; [done|]. destruct t; try done.
  simpl. by destruct (conditionMet _ _ _).
Qed.

(** X2.  The status events the runner forwards are the observations of
    the poller in their order of arrival: a prefix of the observations that
    are not errors, none twice, none out of order, and never an error
    observation. *)
Theorem run_forwards_in_order
    (c : gmap Object.ObjMetadata Kstatus.Status) (q : list Task)
    (sched : list Input) :
  forwarded (run c q sched).1 `prefix_of` observed sched.
Proof.
  unfold run. pose proof (forwarded_nextTask c q) as Hn.
  destruct (nextTask c q) as [ops [[t rest]|]]; simpl in *.
  - pose proof (loop_forwarded_prefix
      {| currentTask := t; taskQueue := rest; abort := false;
         abortReason := None; doneCh := true; collector := c |} sched) as Hp.
    destruct (loop _ sched). simpl in *. by rewrite forwarded_app, Hn.
  - rewrite Hn. apply prefix_nil.
Qed.

Lemma countMsgs_cons (i : Input) (sched : list Input) :
  countMsgs (i :: sched)
  = if isTaskMsg i then S (countMsgs sched) else countMsgs sched.
Proof. unfold countMsgs. simpl. by destruct (isTaskMsg i). Qed.

Lemma countMsgs_app (a b : list Input) :
  countMsgs (a ++ b) = (countMsgs a + countMsgs b)%nat.
Proof. unfold countMsgs. by rewrite List.filter_app, length_app. Qed.

(** A turn on a benign input other than a task message changes neither the
    task in flight nor the queue. *)
Lemma step_benign (st : loopState) (i : Input) :
  abort st = false -> benign i = true -> isTaskMsg i = false ->
  exists ops st',
    step st i = (ops, Continue st') /\ abort st' = false
    /\ currentTask st' = currentTask st /\ taskQueue st' = taskQueue st
    /\ started ops = [].
Proof.
  intros Ha Hb Hi. destruct i as [[ev|]|msg| |obj]; simpl in *; try done.
  - rewrite Ha. apply andb_prop in Hb as [He Hr].
    unfold isErrorObservation in He. apply negb_true_iff in He. rewrite He.
    destruct (Kstatus.Resource ev); [|done].
    eexists _, _. split; [done|]. simpl. repeat split; [done|].
    destruct (currentTask st); try done. by destruct (conditionMet _ _ _).
  - by eexists _, _.
  - eexists _, _. repeat split; [done|]. by destruct (workerEvent _ _).
Qed.

(** A run in which nothing goes wrong: every message on the task channel
    ends the task in flight and starts the next one of the queue. *)
Lemma loop_benign (st : loopState) (sched : list Input) :
  abort st = false -> forallb benign sched = true ->
  ((countMsgs sched <= length (taskQueue st))%nat ->
   exists st',
     (loop st sched).2 = Blocked st' /\ abort st' = false
     /\ started (loop st sched).1 = take (countMsgs sched) (taskQueue st))
  /\ ((length (taskQueue st) < countMsgs sched)%nat ->
      (loop st sched).2 = Returned None
      /\ started (loop st sched).1 = taskQueue st).
Proof.
  revert st. induction sched as [|i sched IH]; intros st Ha Hb.
  { split; [|unfold countMsgs; simpl; lia]. intros _. by exists st. }
  simpl in Hb. apply andb_prop in Hb as [Hi Hb].
  rewrite loop_cons, countMsgs_cons.
  destruct (isTaskMsg i) eqn:Hm.
  - destruct i as [|msg| |]; try done. simpl in Hi |- *.
    destruct (Err_ msg); [done|]. rewrite Ha.
    pose proof (nextTask_started (collector st) (taskQueue st)) as Hn.
    destruct (nextTask _ _) as [ops' [[t rest]|]]; simpl.
    + destruct Hn as [Hq Hst]. rewrite Hq. simpl.
      destruct (IH (set_task st t rest) Ha Hb) as [IH1 IH2]. simpl in IH1, IH2.
      change (ClearTimeout (currentTask st) :: ops' ++ ?l)
        with ([ClearTimeout (currentTask st)] ++ ops' ++ l).
      rewrite !started_app, Hst. simpl. split.
      * intros Hle. destruct IH1 as (st' & -> & Ha' & ->); [lia|]. by exists st'.
      * intros Hlt. destruct IH2 as [-> ->]; [lia|]. done.
    + destruct Hn as [-> ->]. simpl. split; [lia|done].
  - destruct (step_benign st i Ha Hi Hm) as (ops & st' & -> & Ha' & _ & Hq & Hst).
    simpl. rewrite started_app, Hst, <- Hq. simpl. exact (IH st' Ha' Hb).
Qed.

Lemma run_benign_blocked (c : gmap Object.ObjMetadata Kstatus.Status)
    (q : list Task) (sched : list Input) :
  forallb benign sched = true -> (countMsgs sched < length q)%nat ->
  exists ops st',
    run c q sched = (ops, Blocked st') /\ abort st' = false
    /\ started ops = take (S (countMsgs sched)) q.
Proof.
  intros Hb Hlt. unfold run.
  pose proof (nextTask_started c q) as Hn.
  destruct (nextTask c q) as [ops0 [[t rest]|]].
  - destruct Hn as [-> Hst]. simpl in Hlt.
    destruct (loop_benign
      {| currentTask := t; taskQueue := rest; abort := false;
         abortReason := None; doneCh := true; collector := c |} sched eq_refl Hb)
      as [H1 _].
    destruct H1 as (st' & Hr & Ha' & Hs); [simpl; lia|].
    destruct (loop _ sched) as [ops r]. simpl in *. subst r.
    exists (ops0 ++ ops), st'. by rewrite started_app, Hst, Hs.
  - destruct Hn as [-> _]. simpl in Hlt. lia.
Qed.

(** X3.  When nothing goes wrong (no cancellation, no error observation,
    no observation without its resource, no task error) the runner returns
    [nil] with the message of the last task: as soon as it has received as
    many task messages as the queue has tasks, with all tasks started in
    order.  With fewer messages it is still waiting for the task in
    flight, and has started one task more than it has received
    messages. *)
Theorem run_benign (c : gmap Object.ObjMetadata Kstatus.Status)
    (q : list Task) (sched : list Input) :
  forallb benign sched = true ->
  ((length q <= countMsgs sched)%nat ->
   (run c q sched).2 = Returned None /\ started (run c q sched).1 = q)
  /\ ((countMsgs sched < length q)%nat ->
      exists st',
        (run c q sched).2 = Blocked st'
        /\ started (run c q sched).1 = take (S (countMsgs sched)) q).
Proof.
  intros Hb. split.
  - intros Hle. unfold run.
    pose proof (nextTask_started c q) as Hn.
    destruct (nextTask c q) as [ops0 [[t rest]|]].
    + destruct Hn as [-> Hst]. simpl in Hle.
      destruct (loop_benign
        {| currentTask := t; taskQueue := rest; abort := false;
           abortReason := None; doneCh := true; collector := c |} sched eq_refl Hb)
        as [_ H2].
      destruct H2 as [Hr Hs]; [simpl; lia|].
      destruct (loop _ sched) as [ops r]. simpl in *. subst r.
      by rewrite started_app, Hst, Hs.
    + by destruct Hn as [-> ->].
  - intros Hlt.
    destruct (run_benign_blocked c q sched Hb Hlt) as (ops & st' & -> & _ & Hs).
    by exists st'.
Qed.

(** While the loop is waiting it has started one task of the queue for
    each message it received on the task channel. *)
Lemma loop_blocked_started (st st' : loopState) (sched : list Input) (ops : list Op) :
  loop st sched = (ops, Blocked st') ->
  started ops = take (countMsgs sched) (taskQueue st).
Proof.
  revert st ops. induction sched as [|i sched IH]; intros st ops.
  { by intros [= <- _]. }
  rewrite loop_cons, countMsgs_cons.
  destruct (step st i) as [ops1 [st1|e|]] eqn:Hs; [|done..].
  destruct (loop st1 sched) as [ops2 r] eqn:Hl. cbn [fst snd]. intros [= <- ->].
  rewrite started_app, (IH _ _ Hl).
  destruct (step_Continue _ _ _ _ Hs)
    as [(_ & Hq & -> & _ & -> & _)
       |(msg & t & rest & ops' & -> & _ & _ & Hn & -> & ->)].
  - by rewrite Hq.
  - pose proof (nextTask_started (collector st) (taskQueue st)) as Hst.
    rewrite Hn in Hst. destruct Hst as [-> Hst].
    change (ClearTimeout ?x :: ops') with ([ClearTimeout x] ++ ops').
    by rewrite started_app, Hst.
Qed.

Lemma run_blocked_started (c : gmap Object.ObjMetadata Kstatus.Status)
    (q : list Task) (sched : list Input) (ops : list Op) (st : loopState) :
  run c q sched = (ops, Blocked st) ->
  started ops = take (S (countMsgs sched)) q.
Proof.
  unfold run. pose proof (nextTask_started c q) as Hn.
  destruct (nextTask c q) as [ops0 [[t rest]|]]; [|done].
  destruct Hn as [-> Hst].
  destruct (loop _ sched) as [ops1 r] eqn:Hl. intros [= <- ->].
  by rewrite started_app, Hst, (loop_blocked_started _ _ _ _ Hl).
Qed.

(** X4.  Whenever a task posts an error while the runner waits for it,
    whatever the runner received before (status events, a cancellation, an
    error of the poller), the runner clears the timeout of the task and
    returns that error, and the tasks behind it in the queue are never
    started: after [k] earlier messages on the task channel, exactly
    [k + 1] tasks have been started. *)
Theorem task_error_stops_queue (c : gmap Object.ObjMetadata Kstatus.Status)
    (q : list Task) (pre rest : list Input) (msg : TaskResult) (err : error)
    (ops : list Op) (st : loopState) :
  run c q pre = (ops, Blocked st) ->
  Err_ msg = Some err ->
  run c q (pre ++ TaskMsg msg :: rest)
  = (ops ++ [ClearTimeout (currentTask st)], Returned (Some err))
  /\ started (run c q (pre ++ TaskMsg msg :: rest)).1 = take (S (countMsgs pre)) q.
Proof.
  intros Hr He.
  destruct (run_app _ _ _ _ (TaskMsg msg :: rest) _ Hr) as [Hrun _].
  rewrite Hrun. simpl. rewrite He. simpl. split; [done|].
  rewrite started_app, app_nil_r. by eapply run_blocked_started.
Qed.

Lemma cleared_nextTask (c : gmap Object.ObjMetadata Kstatus.Status) (q : list Task) :
  cleared (nextTask c q).1 = [].
Proof.
  destruct q as [|t q]; [done|]. destruct t; try done.
  simpl. by destruct (conditionMet _ _ _).
Qed.

(** The timeout of a task is cleared when its message arrives, before the
    next task is started. *)
Lemma loop_cleared (st : loopState) (sched : list Input) :
  exists inflight,
    currentTask st :: started (loop st sched).1
    = cleared (loop st sched).1 ++ inflight
    /\ match (loop st sched).2 with
       | Returned _ => inflight = []
       | Blocked st' => inflight = [currentTask st']
       | Panicked => length inflight = 1%nat
       end.
Proof.
  revert st. induction sched as [|i sched IH]; intros st.
  { by exists [currentTask st]. }
  rewrite loop_cons. destruct (step st i) as [ops [st'|err|]] eqn:Hs; simpl.
  - destruct (IH st') as (inflight & Heq & Hr). exists inflight. split; [|done].
    rewrite started_app, cleared_app, <- app_assoc, <- Heq.
    destruct (step_Continue _ _ _ _ Hs)
      as [(-> & _ & -> & -> & _)|(msg & t & rest & ops' & _ & _ & _ & Hn & -> & ->)];
      [done|].
    pose proof (nextTask_started (collector st) (taskQueue st)) as Hq.
    pose proof (cleared_nextTask (collector st) (taskQueue st)) as Hcl.
    rewrite Hn in Hq, Hcl. destruct Hq as [_ Hst]. simpl in *.
    by rewrite Hst, Hcl.
  - destruct (step_Return _ _ _ _ Hs) as (msg & _ & -> & _). by exists [].
  - destruct (step_Panic _ _ _ Hs) as (ev & _ & _ & _ & _ & ->).
    by exists [currentTask st].
Qed.

(** X5.  When the runner returns, [ClearTimeout] has been called on every
    task it started, once each and in the order of their start; while it is
    waiting, on every started task but the one in flight. *)
Theorem run_clears_every_task (c : gmap Object.ObjMetadata Kstatus.Status)
    (q : list Task) (sched : list Input) :
  match (run c q sched).2 with
  | Returned _ => cleared (run c q sched).1 = started (run c q sched).1
  | Blocked st' =>
      started (run c q sched).1 = cleared (run c q sched).1 ++ [currentTask st']
  | Panicked => cleared (run c q sched).1 `prefix_of` started (run c q sched).1
  end.
Proof.
  unfold run. pose proof (nextTask_started c q) as Hn.
  pose proof (cleared_nextTask c q) as Hcl.
  destruct (nextTask c q) as [ops0 [[t rest]|]]; simpl in Hcl.
  - destruct Hn as [_ Hst].
    destruct (loop_cleared
      {| currentTask := t; taskQueue := rest; abort := false;
         abortReason := None; doneCh := true; collector := c |} sched)
      as (inflight & Heq & Hr).
    destruct (loop _ sched) as [ops r]. simpl in *.
    rewrite started_app, cleared_app, Hst, Hcl. simpl.
    destruct r as [err| |st']; subst; rewrite ?app_nil_r in *; try done.
    rewrite Heq. by apply prefix_app_r.
  - by destruct Hn as [-> ->].
Qed.

Lemma completed_step (st : loopState) (i : Input) :
  Forall (fun t => isWaitTask t = true) (completed (step st i).1).
Proof.
  assert (forall t, Forall (fun t => isWaitTask t = true)
                      (completed (completeIfWaitTask t))) as Hc.
  { intros t. destruct t; simpl; by repeat constructor. }
  destruct i as [[ev|]|msg| |obj]; simpl.
  - destruct (abort st); [constructor|]. case_bool_decide; [apply Hc|].
    destruct (Kstatus.Resource ev); [|constructor]. simpl.
    destruct (currentTask st) eqn:Ht; try constructor.
    destruct (conditionMet _ _ _); simpl; by repeat constructor.
  - constructor.
  - destruct (Err_ msg); [constructor|]. destruct (abort st); [constructor|].
    destruct (taskQueue st) as [|t rest]; simpl; [constructor|].
    destruct t; simpl; try constructor.
    destruct (conditionMet _ _ _); simpl; by repeat constructor.
  - destruct (doneCh st); [apply Hc|constructor].
  - destruct (workerEvent _ _); constructor.
Qed.

(** X6.  The runner calls [complete] and [startAndComplete] on Wait tasks
    only: an Apply, Prune or SendEvent task is never ended by the runner,
    whatever it receives. *)
Theorem only_wait_tasks_completed (c : gmap Object.ObjMetadata Kstatus.Status)
    (q : list Task) (sched : list Input) :
  Forall (fun t => isWaitTask t = true) (completed (run c q sched).1).
Proof.
  unfold run.
  assert (Forall (fun t => isWaitTask t = true) (completed (nextTask c q).1)) as Hn.
  { destruct q as [|t rest]; simpl; [constructor|].
    destruct t; simpl; try constructor.
    destruct (conditionMet _ _ _); simpl; by repeat constructor. }
  destruct (nextTask c q) as [ops0 [[t rest]|]]; [|done].
  assert (Forall (fun t => isWaitTask t = true)
            (completed (loop {| currentTask := t; taskQueue := rest; abort := false;
                                abortReason := None; doneCh := true;
                                collector := c |} sched).1)) as Hl.
  { apply (loop_ops_ind
             (fun ops => Forall (fun t => isWaitTask t = true) (completed ops))).
    - constructor.
    - intros a b Ha Hb. rewrite completed_app. by apply Forall_app.
    - apply completed_step. }
  destruct (loop _ sched) as [ops r]. simpl in *.
  rewrite completed_app. by apply Forall_app.
Qed.

(** Receives from a closed status channel change nothing. *)
Lemma loop_closed_recv (st : loopState) (sched : list Input) :
  loop st (List.filter (fun i => negb (isClosedRecv i)) sched) = loop st sched.
Proof.
  revert st. induction sched as [|i sched IH]; intros st; [done|].
  destruct i as [[ev|]|msg| |obj];
    try (cbn [List.filter isClosedRecv negb]; rewrite !loop_cons;
         destruct (step st _) as [ops [st'|err|]]; by rewrite ?IH).
  cbn [List.filter isClosedRecv negb]. rewrite IH, (loop_cons st (StatusRecv None)).
  simpl. by destruct (loop st sched).
Qed.

(** X8.  A closed status channel neither ends nor aborts the run: the
    receives from it that the loop selects leave every operation and the
    result of the run as they are without them. *)
Theorem closed_status_channel_ignored
    (c : gmap Object.ObjMetadata Kstatus.Status) (q : list Task)
    (sched : list Input) :
  run c q (List.filter (fun i => negb (isClosedRecv i)) sched) = run c q sched.
Proof.
  unfold run. destruct (nextTask c q) as [ops0 [[t rest]|]]; [|done].
  by rewrite loop_closed_recv.
Qed.

(** The reason of an aborting loop is the one it had or made from an error
    observation. *)
Lemma step_abortReason (st st' : loopState) (i : Input) (ops : list Op) :
  step st i = (ops, Continue st') ->
  abortReason st' = abortReason st
  \/ exists ev, i = StatusRecv (Some ev) /\ isErrorObservation ev = true
                /\ abortReason st' = Some (PollingFailed (Kstatus.Error ev)).
Proof.
  destruct i as [[ev|]|msg| |obj]; simpl.
  - destruct (abort st); [intros [= _ <-]; by left|].
    destruct (bool_decide _) eqn:He.
    + intros [= _ <-]. right. by exists ev.
    + destruct (Kstatus.Resource ev); [|done]. intros [= _ <-]. by left.
  - intros [= _ <-]. by left.
  - destruct (Err_ msg); [done|]. destruct (abort st); [done|].
    destruct (nextTask _ _) as [ops' [[t rest]|]]; [|done].
    intros [= _ <-]. by left.
  - destruct (doneCh st); intros [= _ <-]; by left.
  - intros [= _ <-]. by left.
Qed.

Lemma loop_error_provenance (st : loopState) (sched : list Input) (err : error) :
  (loop st sched).2 = Returned (Some err) ->
  abortReason st = Some err
  \/ (exists msg, In (TaskMsg msg) sched /\ Err_ msg = Some err)
  \/ (exists ev, In (StatusRecv (Some ev)) sched /\ isErrorObservation ev = true
                 /\ err = PollingFailed (Kstatus.Error ev)).
Proof.
  revert st. induction sched as [|i sched IH]; intros st; [done|].
  rewrite loop_cons. destruct (step st i) as [ops [st'|e|]] eqn:Hs; simpl; [| |done].
  - intros Hr. destruct (IH st' Hr) as [Ha|[(msg & Hin & He)|(ev & Hin & He & ->)]].
    + destruct (step_abortReason _ _ _ _ Hs) as [<-|(ev & -> & He & Hreason)];
        [by left|].
      right. right. exists ev. split; [by left|]. split; [done|]. congruence.
    + right. left. exists msg. split; [by right|done].
    + right. right. exists ev. split; [by right|done].
  - intros [= ->].
    destruct (step_Return _ _ _ _ Hs)
      as (msg & -> & _ & [(e & He & [= <-])|[(_ & _ & Hr)|(_ & _ & _ & ?)]]);
      [|by left|done].
    right. left. exists msg. split; [by left|done].
Qed.

(** X9.  An error that the runner returns is an error that a task posted
    or is made from an error observation of the poller; the runner returns
    no error of its own, and none for a cancellation. *)
Theorem run_error_provenance (c : gmap Object.ObjMetadata Kstatus.Status)
    (q : list Task) (sched : list Input) (err : error) :
  (run c q sched).2 = Returned (Some err) ->
  (exists msg, In (TaskMsg msg) sched /\ Err_ msg = Some err)
  \/ (exists ev, In (StatusRecv (Some ev)) sched /\ isErrorObservation ev = true
                 /\ err = PollingFailed (Kstatus.Error ev)).
Proof.
  unfold run. destruct (nextTask c q) as [ops0 [[t rest]|]]; [|done].
  pose proof (loop_error_provenance
    {| currentTask := t; taskQueue := rest; abort := false;
       abortReason := None; doneCh := true; collector := c |} sched err) as Hl.
  destruct (loop _ sched) as [ops r]. simpl in *. intros Hr.
  by destruct (Hl Hr) as [?|?].
Qed.

Lemma loop_Panicked (st : loopState) (sched : list Input) :
  (loop st sched).2 = Panicked ->
  exists ev, In (StatusRecv (Some ev)) sched /\ Kstatus.Resource ev = None
             /\ isErrorObservation ev = false.
Proof.
  revert st. induction sched as [|i sched IH]; intros st; [done|].
  rewrite loop_cons. destruct (step st i) as [ops [st'|e|]] eqn:Hs; simpl; [|done|].
  - intros Hr. destruct (IH st' Hr) as (ev & Hin & H). exists ev. split; [by right|done].
  - intros _. destruct (step_Panic _ _ _ Hs) as (ev & -> & Hr & He & _).
    exists ev. split; [by left|done].
Qed.

(** X10.  The runner panics only on an observation that is not an error
    and carries no resource: when every observation of the poller is an
    error observation or carries its resource, a run never panics. *)
Theorem run_never_panics (c : gmap Object.ObjMetadata Kstatus.Status)
    (q : list Task) (sched : list Input) :
  (forall ev, In (StatusRecv (Some ev)) sched ->
              isErrorObservation ev = true \/ Kstatus.Resource ev <> None) ->
  (run c q sched).2 <> Panicked.
Proof.
  intros Hobs. unfold run. destruct (nextTask c q) as [ops0 [[t rest]|]]; [|done].
  pose proof (loop_Panicked
    {| currentTask := t; taskQueue := rest; abort := false;
       abortReason := None; doneCh := true; collector := c |} sched) as Hl.
  destruct (loop _ sched) as [ops r]. simpl in *. intros ->.
  destruct (Hl eq_refl) as (ev & Hin & Hr & He).
  destruct (Hobs ev Hin) as [?|?]; congruence.
Qed.

(** X7.  The runner without status polling ([taskRunner.Run], whose status
    channel is [nil]) forwards no event, never panics, and returns no error
    but one that a task posted. *)
Theorem taskRunner_Run_task_errors_only (q : list Task) (sched : list Input) :
  forwarded (TaskRunner_Run q sched).1 = []
  /\ (TaskRunner_Run q sched).2 <> Panicked
  /\ forall err, (TaskRunner_Run q sched).2 = Returned (Some err) ->
                 exists msg, In (TaskMsg msg) sched /\ Err_ msg = Some err.
Proof.
  unfold TaskRunner_Run, run.
  set (sched' := List.filter (fun i => negb (isStatusRecv i)) sched).
  assert (forall i, In i sched' -> In i sched /\ isStatusRecv i = false) as Hin.
  { intros i Hi. apply List.filter_In in Hi as [Hi Hn].
    by apply negb_true_iff in Hn. }
  pose proof (forwarded_nextTask (newResourceStatusCollector []) q) as Hn.
  destruct (nextTask _ q) as [ops0 [[t rest]|]]; cbn [fst snd] in *; [|done].
  set (st := {| currentTask := t; taskQueue := rest; abort := false;
                abortReason := None; doneCh := true;
                collector := newResourceStatusCollector [] |}).
  pose proof (loop_forwarded_prefix st sched') as Hp.
  pose proof (loop_Panicked st sched') as Hpanic.
  pose proof (loop_error_provenance st sched') as Herr.
  destruct (loop st sched') as [ops r]. cbn [fst snd] in *.
  assert (observed sched' = []) as Hobs.
  { clear -Hin. induction sched' as [|i l IH]; [done|].
    destruct (Hin i (or_introl eq_refl)) as [_ Hi].
    destruct i; try done; simpl; apply IH; intros j Hj; apply Hin; by right. }
  rewrite Hobs in Hp. apply prefix_nil_inv in Hp.
  rewrite forwarded_app, Hn, Hp. split; [done|]. split.
  - intros ->. destruct (Hpanic eq_refl) as (ev & Hev & _).
    by destruct (Hin _ Hev).
  - intros err ->.
    destruct (Herr err eq_refl) as [?|[(msg & Hm & He)|(ev & Hev & _)]]; [done| |].
    + exists msg. split; [by apply Hin|done].
    + by destruct (Hin _ Hev).
Qed.

End RunnerExtras.

(** ** The applier *)

Section ApplierExtras.
Import Resource Errors Taskrunner RunnerSpec Apply.
Context {C : Collaborators}.

Lemma filter_partition_Permutation {A : Type} (p : A -> bool) (l : list A) :
  Permutation l (List.filter p l ++ List.filter (fun x => negb (p x)) l).
Proof.
  induction l as [|a l IH]; simpl; [done|].
  destruct (p a); simpl.
  - by apply Permutation_cons.
  - by apply Permutation_cons_app.
Qed.

(** X11.  [splitInfos] partitions its input: the grouping object templates
    and the other resources are the infos that do and do not pass
    [IsGroupingObject], each in the order of the input; together they are a
    permutation of the input. *)
Theorem splitInfos_partition (infos : list Info) :
  (splitInfos infos).1 = List.filter (fun info => negb (isGrouping info)) infos
  /\ (splitInfos infos).2 = List.filter isGrouping infos
  /\ Permutation infos ((splitInfos infos).2 ++ (splitInfos infos).1)
  /\ (length (splitInfos infos).1 + length (splitInfos infos).2 = length infos)%nat.
Proof.
  rewrite splitInfos_filter. simpl. repeat split.
  - apply filter_partition_Permutation.
  - rewrite Nat.add_comm, <- length_app.
    symmetry. apply Permutation_length, filter_partition_Permutation.
Qed.

Lemma validateNamespace_from_set (cur : string) (infos : list Info) :
  cur <> NamespaceNone ->
  validateNamespace_from cur infos = true
  <-> forall info, In info infos -> Namespaced info = true -> Namespace info = cur.
Proof.
  intros Hcur. apply String.eqb_neq in Hcur.
  induction infos as [|info infos IH]; simpl; [done|].
  destruct (Namespaced info) eqn:Hn.
  - rewrite Hcur. destruct (String.eqb cur (Namespace info)) eqn:He; simpl.
    + apply String.eqb_eq in He. rewrite IH. split.
      * intros H i [<-|Hi] Hi'; [done|by apply H].
      * intros H i Hi. apply H. by right.
    + apply String.eqb_neq in He. split; [done|].
      intros H. exfalso. apply He. symmetry. apply H; [by left|done].
  - rewrite IH. split.
    + intros H i [<-|Hi] Hi'; [congruence|by apply H].
    + intros H i Hi. apply H. by right.
Qed.

Lemma validateNamespace_from_same (cur ns : string) (infos : list Info) :
  cur = NamespaceNone \/ cur = ns ->
  (forall info, In info infos -> Namespaced info = true -> Namespace info = ns) ->
  validateNamespace_from cur infos = true.
Proof.
  revert cur. induction infos as [|info infos IH]; intros cur Hcur Hall; simpl; [done|].
  assert (forall i, In i infos -> Namespaced i = true -> Namespace i = ns) as Hall'.
  { intros i Hi. apply Hall. by right. }
  destruct (Namespaced info) eqn:Hn; [|by apply IH].
  rewrite (Hall info (or_introl eq_refl) Hn).
  assert ((if String.eqb cur NamespaceNone then ns else cur) = ns) as ->.
  { destruct (String.eqb cur NamespaceNone) eqn:He; [done|].
    apply String.eqb_neq in He. by destruct Hcur. }
  rewrite String.eqb_refl. simpl. apply IH; [by right|done].
Qed.

Lemma validateNamespace_from_none (infos : list Info) (i j : Info) :
  validateNamespace_from NamespaceNone infos = true ->
  In i infos -> In j infos ->
  Namespaced i = true -> Namespaced j = true ->
  Namespace i <> NamespaceNone -> Namespace j <> NamespaceNone ->
  Namespace i = Namespace j.
Proof.
  induction infos as [|info infos IH]; simpl; [done|].
  destruct (Namespaced info) eqn:Hn.
  - destruct (String.eqb (Namespace info) NamespaceNone) eqn:He.
    + apply String.eqb_eq in He. rewrite He. simpl.
      intros Hv [<-|Hi] [<-|Hj] Hni Hnj Hi' Hj'; try done. by apply IH.
    + rewrite String.eqb_refl. simpl. apply String.eqb_neq in He.
      intros Hv Hi Hj Hni Hnj _ _.
      pose proof (proj1 (validateNamespace_from_set _ _ He) Hv) as Hall.
      assert (forall k, info = k \/ In k infos -> Namespaced k = true ->
                        Namespace k = Namespace info) as Hk.
      { intros k [<-|Hk] Hk'; [done|by apply Hall]. }
      by rewrite (Hk i Hi Hni), (Hk j Hj Hnj).
  - intros Hv [<-|Hi] [<-|Hj] Hni Hnj Hi' Hj'; try congruence. by apply IH.
Qed.

Lemma validateNamespace_from_filter (cur : string) (infos : list Info) :
  validateNamespace_from cur (List.filter Namespaced infos)
  = validateNamespace_from cur infos.
Proof.
  revert cur. induction infos as [|info infos IH]; intros cur; simpl; [done|].
  destruct (Namespaced info) eqn:Hn; simpl; rewrite ?Hn, ?IH; done.
Qed.

(** X12.  [validateNamespace] ignores cluster-scoped infos; it accepts
    every set whose namespaced infos all have one namespace; and in a set
    that it accepts any two namespaced infos with a non-empty namespace
    have the same one. *)
Theorem validateNamespace_one_namespace (infos : list Info) :
  validateNamespace infos = validateNamespace (List.filter Namespaced infos)
  /\ (forall ns,
        (forall info, In info infos -> Namespaced info = true -> Namespace info = ns) ->
        validateNamespace infos = true)
  /\ (validateNamespace infos = true ->
      forall i j, In i infos -> In j infos ->
                  Namespaced i = true -> Namespaced j = true ->
                  Namespace i <> NamespaceNone -> Namespace j <> NamespaceNone ->
                  Namespace i = Namespace j).
Proof.
  unfold validateNamespace. split; [by rewrite validateNamespace_from_filter|]. split.
  - intros ns Hall. apply (validateNamespace_from_same _ ns); [by left|done].
  - intros Hv i j. by apply validateNamespace_from_none.
Qed.

(** X13.  A namespaced info whose namespace is empty passes
    [validateNamespace] only before the first info with a namespace: in
    front of it, it is skipped; behind it, it makes the validation fail. *)
Theorem validateNamespace_empty_namespace (i j : Info) (infos : list Info) :
  Namespaced i = true -> Namespace i = NamespaceNone ->
  Namespaced j = true -> Namespace j <> NamespaceNone ->
  validateNamespace (i :: j :: infos) = validateNamespace (j :: infos)
  /\ validateNamespace (j :: i :: infos) = false.
Proof.
  intros Hi Hie Hj Hje. apply String.eqb_neq in Hje.
  unfold validateNamespace. simpl. rewrite Hi, Hj, Hie. simpl.
  split; [done|]. by rewrite String.eqb_refl, !Hje.
Qed.

(** X14.  [readAndPrepareObjects] succeeds exactly when the manifests hold
    one grouping object template, the grouping object can be made from it
    and the sorted resources pass [validateNamespace]; the result is then
    the grouping object followed by the sorted resources.  An error of
    [GetObjects] or of [CreateGroupingObj] is returned as it is. *)
Theorem readAndPrepareObjects_success (infos result : list Info) :
  let resources := List.filter (fun info => negb (isGrouping info)) infos in
  (readAndPrepareObjects (Ok infos) = Ok result
   <-> exists got groupingObject,
         List.filter isGrouping infos = [got]
         /\ CreateGroupingObj got resources = Ok groupingObject
         /\ validateNamespace (sortResourceInfos resources) = true
         /\ result = groupingObject :: sortResourceInfos resources)
  /\ (forall err, readAndPrepareObjects (Err err) = Err err)
  /\ (forall got err,
        List.filter isGrouping infos = [got] ->
        CreateGroupingObj got resources = Err err ->
        readAndPrepareObjects (Ok infos) = Err err).
Proof.
  intros resources. subst resources. split; [|split].
  - unfold readAndPrepareObjects. rewrite splitInfos_filter. split.
    + destruct (List.filter isGrouping infos) as [|got [|got' gots]] eqn:Hg;
        simpl; try done.
      destruct (CreateGroupingObj got _) as [groupingObject|err] eqn:Hc; [|done].
      destruct (validateNamespace _) eqn:Hv; simpl; [|done].
      intros [= <-]. by exists got, groupingObject.
    + intros (got & groupingObject & -> & -> & -> & ->). done.
  - done.
  - intros got err Hg Hc. unfold readAndPrepareObjects.
    by rewrite splitInfos_filter, Hg, Hc.
Qed.

(** X15.  Manifests with one grouping object template whose other
    resources include two namespaced objects in different, non-empty
    namespaces are rejected, whatever order the sort puts them in: with the
    error of [CreateGroupingObj] when the grouping object cannot be made,
    and otherwise with the error "objects have differing namespaces".  The
    namespace of the grouping object itself is not looked at. *)
Theorem readAndPrepareObjects_differing_namespaces
    (infos : list Info) (got i j : Info) :
  (forall l, Permutation (sortResourceInfos l) l) ->
  List.filter isGrouping infos = [got] ->
  In i infos -> In j infos ->
  isGrouping i = false -> isGrouping j = false ->
  Namespaced i = true -> Namespaced j = true ->
  Namespace i <> NamespaceNone -> Namespace j <> NamespaceNone ->
  Namespace i <> Namespace j ->
  readAndPrepareObjects (Ok infos)
  = match CreateGroupingObj got
            (List.filter (fun info => negb (isGrouping info)) infos) with
    | Ok _ => Err (Errorf "objects have differing namespaces")
    | Err err => Err err
    end.
Proof.
  intros Hperm Hg Hi Hj Hgi Hgj Hni Hnj Hei Hej Hne.
  unfold readAndPrepareObjects. rewrite splitInfos_filter, Hg. simpl.
  set (resources := List.filter (fun info => negb (isGrouping info)) infos).
  destruct (CreateGroupingObj got resources) as [groupingObject|err]; [|done].
  destruct (validateNamespace (sortResourceInfos resources)) eqn:Hv; [|done].
  exfalso. apply Hne.
  assert (forall k, In k infos -> isGrouping k = false ->
                    In k (sortResourceInfos resources)) as Hin.
  { intros k Hk Hgk. apply (Permutation_in _ (Permutation_sym (Hperm resources))).
    apply List.filter_In. by rewrite Hgk. }
  exact (validateNamespace_from_none _ i j Hv
           (Hin i Hi Hgi) (Hin j Hj Hgj) Hni Hnj Hei Hej).
Qed.

(** A loop that receives no message on the task channel keeps its task in
    flight. *)
Lemma loop_no_msg (st : loopState) (sched : list Input) :
  forallb (fun i => negb (isTaskMsg i)) sched = true ->
  (loop st sched).2 = Panicked
  \/ exists st', (loop st sched).2 = Blocked st'
                 /\ currentTask st' = currentTask st
                 /\ taskQueue st' = taskQueue st
                 /\ started (loop st sched).1 = [].
Proof.
  revert st. induction sched as [|i sched IH]; intros st Hs.
  { right. by exists st. }
  simpl in Hs. apply andb_prop in Hs as [Hi Hs]. apply negb_true_iff in Hi.
  rewrite loop_cons. destruct (step st i) as [ops [st'|err|]] eqn:Hst; simpl.
  - destruct (step_Continue _ _ _ _ Hst)
      as [(Hc & Hq & Ho & _)|(msg & t & rest & ops' & -> & _)]; [|done].
    destruct (IH st' Hs) as [?|(st2 & Hr & Hc2 & Hq2 & Ho2)]; [by left|].
    right. exists st2. rewrite started_app, Ho, Ho2. repeat split; congruence.
  - destruct (step_Return _ _ _ _ Hst) as (msg & -> & _). done.
  - by left.
Qed.

(** X16.  When the manifests are read, [Run] sends the [Init] event and
    starts the Apply task over all infos, whatever the schedule, also when
    the context is cancelled from the start.  Until the Apply task posts
    its result the runner stays with it and starts no other task, and
    the event channel is not closed. *)
Theorem Run_starts_apply (a : Applier) (getObjects : result (list Info))
    (infos : list Info) (sched : list Input) :
  readAndPrepareObjects getObjects = Ok infos ->
  (exists rest,
     Apply.Run a getObjects sched
     = Send (initEvent (infosToObjMetas infos)) :: Start (ApplyTask infos) :: rest)
  /\ (forallb (fun i => negb (isTaskMsg i)) sched = true ->
      (forall ev, In (StatusRecv (Some ev)) sched ->
                  isErrorObservation ev = true \/ Kstatus.Resource ev <> None) ->
      started (Apply.Run a getObjects sched) = [ApplyTask infos]
      /\ ~ In Close (Apply.Run a getObjects sched)).
Proof.
  intros Hok. unfold Apply.Run, Taskrunner.Run, run. rewrite Hok.
  set (identifiers := infosToObjMetas infos).
  assert (exists q, buildTaskQueue a infos identifiers = ApplyTask infos :: q)
    as (q & Hq).
  { unfold buildTaskQueue. destruct (wait _), (NoPrune a); by eexists. }
  pose proof (buildTaskQueue_plain a infos identifiers) as Hplain.
  rewrite Hq in Hplain |- *. cbn [nextTask].
  set (st := {| currentTask := ApplyTask infos; taskQueue := q; abort := false;
                abortReason := None; doneCh := true;
                collector := newResourceStatusCollector identifiers |}).
  split.
  - destruct (loop st sched) as [ops [[err|]| |st']]; simpl; by eexists.
  - intros Hs Hobs.
    pose proof (loop_no_msg st sched Hs) as Hl.
    pose proof (loop_Panicked st sched) as Hp.
    pose proof (loop_body st sched) as Hb.
    destruct (loop st sched) as [ops r]. simpl in Hl, Hp, Hb.
    destruct Hl as [->|(st' & -> & _ & _ & Ho)].
    + destruct (Hp eq_refl) as (ev & Hin & Hr & He).
      destruct (Hobs ev Hin); congruence.
    + simpl. split; [by rewrite Ho|].
      intros [?|[?|Hin]]; try done.
      specialize (Hb Hplain). rewrite forallb_forall in Hb.
      by specialize (Hb _ Hin).
Qed.

End ApplierExtras.

(** ** Setting up the applier *)

Section SetupExtras.
Import Errors Setup.
Context {FileNameFlags RESTConfig RESTMapper Client Poller PostProcessor Rest : Type}.
Context {F : Factory FileNameFlags RESTConfig RESTMapper Client Poller PostProcessor Rest}.

Lemma newStatusPoller_Ok (p : Poller) :
  newStatusPoller = Ok p ->
  exists config mapper c,
    ToRESTConfig = Ok config /\ ToRESTMapper = Ok mapper
    /\ clientNew config mapper = Ok c /\ p = NewStatusPoller c mapper.
Proof.
  unfold newStatusPoller.
  destruct ToRESTConfig as [config|e]; [|done].
  destruct ToRESTMapper as [mapper|e]; [|done].
  destruct (clientNew config mapper) as [c|e] eqn:Hc; [|done].
  intros [= <-]. by exists config, mapper, c.
Qed.

Lemma newStatusPoller_Err (err : error) :
  newStatusPoller = Err err ->
  (exists e, ToRESTConfig = Err e /\ err = WrapPrefix e "error getting RESTConfig")
  \/ (exists config e,
        ToRESTConfig = Ok config /\ ToRESTMapper = Err e
        /\ err = WrapPrefix e "error getting RESTMapper")
  \/ (exists config mapper e,
        ToRESTConfig = Ok config /\ ToRESTMapper = Ok mapper
        /\ clientNew config mapper = Err e
        /\ err = WrapPrefix e "error creating client").
Proof.
  unfold newStatusPoller.
  destruct ToRESTConfig as [config|e]; [|intros [= <-]; left; by exists e].
  destruct ToRESTMapper as [mapper|e];
    [|intros [= <-]; right; left; by exists config, e].
  destruct (clientNew config mapper) as [c|e] eqn:Hc; [done|].
  intros [= <-]. right. right. by exists config, mapper, e.
Qed.

(** X17.  When [Initialize] returns [nil], the applier holds the status
    poller made from the client and the mapper of the factory, the dry-run
    flag of the applier is the one of the apply and of the prune options,
    and the post processor of the apply options is [nil], whatever
    [Complete] and the set-up of the prune options wrote into them. *)
Theorem Initialize_success
    (a a' : Applier FileNameFlags Poller PostProcessor Rest) (paths : list string) :
  Initialize a paths = (a', None) ->
  aoDryRun (ApplyOptions_ a') = DryRun a
  /\ poDryRun (PruneOptions_ a') = DryRun a
  /\ aoPostProcessorFn (ApplyOptions_ a') = None
  /\ DryRun a' = DryRun a
  /\ exists config mapper c,
       ToRESTConfig = Ok config /\ ToRESTMapper = Ok mapper
       /\ clientNew config mapper = Ok c
       /\ statusPoller a' = Some (NewStatusPoller c mapper).
Proof.
  unfold Initialize.
  destruct (demandOneDirectory paths) as [flags|e]; [|done].
  destruct (Complete _) as [o [e|]]; [done|].
  destruct (PruneInitialize _) as [p [e|]]; [done|].
  destruct newStatusPoller as [poller|e] eqn:Hp; [|done].
  intros [= <-]. simpl. repeat split.
  destruct (newStatusPoller_Ok _ Hp) as (config & mapper & c & ? & ? & ? & ->).
  by exists config, mapper, c.
Qed.

(** X18.  When [Initialize] fails, the status poller of the applier is
    left as it was, and the error tells the first step that failed.  The
    error of [demandOneDirectory] is returned as it is and the applier is
    untouched.  When the directory is found, an error of [Complete] on the
    apply options that hold it carries the prefix "error setting up
    ApplyOptions".  When [Complete] succeeds, an error of the set-up of the
    prune options carries the prefix "error setting up PruneOptions".  When
    both succeed, the error is the one of the first step of
    [newStatusPoller] that fails (the REST config, then the REST mapper,
    then the client made from both) with the prefix of that step inside the
    prefix "error creating resolver". *)
Theorem Initialize_failure
    (a a' : Applier FileNameFlags Poller PostProcessor Rest) (paths : list string)
    (err : error) :
  Initialize a paths = (a', Some err) ->
  statusPoller a' = statusPoller a /\ DryRun a' = DryRun a
  /\ ((demandOneDirectory paths = Err err /\ a' = a)
      \/ exists fileNameFlags o,
           demandOneDirectory paths = Ok fileNameFlags
           /\ ((exists e,
                  Complete {| aoFileNameFlags := Some fileNameFlags;
                              aoPostProcessorFn := aoPostProcessorFn (ApplyOptions_ a);
                              aoDryRun := aoDryRun (ApplyOptions_ a);
                              aoRest := aoRest (ApplyOptions_ a) |}
                  = (o, Some e)
                  /\ err = WrapPrefix e "error setting up ApplyOptions")
               \/ (Complete {| aoFileNameFlags := Some fileNameFlags;
                               aoPostProcessorFn := aoPostProcessorFn (ApplyOptions_ a);
                               aoDryRun := aoDryRun (ApplyOptions_ a);
                               aoRest := aoRest (ApplyOptions_ a) |}
                   = (o, None)
                   /\ exists p,
                        (exists e,
                           PruneInitialize (PruneOptions_ a) = (p, Some e)
                           /\ err = WrapPrefix e "error setting up PruneOptions")
                        \/ (PruneInitialize (PruneOptions_ a) = (p, None)
                            /\ ((exists e,
                                   ToRESTConfig = Err e
                                   /\ err = WrapPrefix
                                              (WrapPrefix e "error getting RESTConfig")
                                              "error creating resolver")
                                \/ (exists config e,
                                      ToRESTConfig = Ok config
                                      /\ ToRESTMapper = Err e
                                      /\ err = WrapPrefix
                                                 (WrapPrefix e "error getting RESTMapper")
                                                 "error creating resolver")
                                \/ (exists config mapper e,
                                      ToRESTConfig = Ok config
                                      /\ ToRESTMapper = Ok mapper
                                      /\ clientNew config mapper = Err e
                                      /\ err = WrapPrefix
                                                 (WrapPrefix e "error creating client")
                                                 "error creating resolver")))))).
Proof.
  unfold Initialize.
  destruct (demandOneDirectory paths) as [flags|e].
  2:{ intros [= <- <-]. repeat split. by left. }
  cbn [ApplyOptions_ PruneOptions_ set_ApplyOptions set_PruneOptions].
  destruct (Complete _) as [o [e|]] eqn:Hc.
  { intros [= <- <-]. repeat split. right. exists flags, o. split; [done|].
    left. by exists e. }
  destruct (PruneInitialize _) as [p [e|]] eqn:Hp.
  { intros [= <- <-]. repeat split. right. exists flags, o. split; [done|].
    right. split; [done|]. exists p. left. by exists e. }
  destruct newStatusPoller as [poller|e] eqn:Hn; [done|].
  intros [= <- <-]. repeat split. right. exists flags, o. split; [done|].
  right. split; [done|]. exists p. right. split; [done|].
  destruct (newStatusPoller_Err _ Hn)
    as [(e' & He & ->)
       |[(config & e' & Hcfg & He & ->)|(config & mapper & e' & Hcfg & Hm & He & ->)]].
  - left. by exists e'.
  - right. left. by exists config, e'.
  - right. right. by exists config, mapper, e'.
Qed.

End SetupExtras.

(** ** The apply command *)

Section CommandExtras.
Import Errors Command.
Context {Rest Resource : Type} {W : Wire Rest Resource}.

(** X19.  [RunE] works through its arguments from the left and stops at
    the first one that fails: it has then printed one line for each
    argument before it, and returns the error of that argument; it returns
    [nil] exactly when it has printed a line for every argument. *)
Theorem RunE_stops_at_first_error (args : list string) (out : list nat)
    (err : option error) :
  RunE args = (out, err) ->
  Forall2 (fun arg n => runArg arg = Ok n) (take (length out) args) out
  /\ match err with
     | None => length out = length args
     | Some e => exists arg, args !! length out = Some arg /\ runArg arg = Err e
     end.
Proof.
  revert out err. induction args as [|arg args IH]; intros out err; simpl.
  - intros [= <- <-]. split; [constructor|done].
  - destruct (runArg arg) as [n|e] eqn:Ha.
    + destruct (RunE args) as [out' err'] eqn:Hr. intros [= <- <-].
      destruct (IH out' err' eq_refl) as [H1 H2]. simpl. split.
      * by constructor.
      * destruct err' as [e|]; [done|]. by rewrite H2.
    + intros [= <- <-]. simpl. split; [constructor|]. by exists arg.
Qed.

End CommandExtras.

(** ** The fakes of the engine tests *)

Section EngineFakesExtras.
Import Kstatus EngineFakes.




(** X21.  A read of a kind without a script, or with an empty one,
    panics, whatever the count of the kind is. *)
Theorem ReadStatus_without_script (f : fakeStatusReader)
    (identifier : Object.ObjMetadata) :
  default [] (resourceStatuses f !! Object.GK identifier) = [] ->
  ReadStatus f identifier = None.
Proof.
  intros Hs. unfold ReadStatus. rewrite Hs. simpl. unfold index.
  destruct (_ >? _) eqn:Hgt; [|done].
  apply Z.gtb_lt in Hgt. simpl in Hgt.
  destruct (_ <? 0) eqn:Hlt; [done|]. apply Z.ltb_ge in Hlt. lia.
Qed.

(** X22.  The counts of the fake status reader are kept by kind: a read
    of one kind leaves the status that a read of another kind gets as it
    was. *)
Theorem ReadStatus_other_kind (f f' : fakeStatusReader)
    (identifier other : Object.ObjMetadata) (r : ResourceStatus) :
  ReadStatus f identifier = Some (r, f') ->
  Object.GK other <> Object.GK identifier ->
  fst <$> ReadStatus f' other = fst <$> ReadStatus f other.
Proof.
  unfold ReadStatus at 1.
  destruct (if _ >? _ then _ else _) as [s|]; [|done].
  intros [= <- <-] Hne. unfold ReadStatus. simpl.
  rewrite lookup_insert_ne by done.
  by destruct (if _ >? _ then _ else _).
Qed.

Lemma AggregateStatus_Current (f : fakeAggregator) :
  AggregateStatus f = CurrentStatus
  <-> forall id s, statuses f !! id = Some s -> s = CurrentStatus.
Proof.
  unfold AggregateStatus.
  destruct (forallb _ _) eqn:Hall.
  - split; [intros _|done]. intros id s Hl.
    rewrite forallb_forall in Hall.
    specialize (Hall (id, s)). simpl in Hall.
    apply (proj1 (bool_decide_eq_true _)), Hall.
    by apply list_elem_of_In, elem_of_map_to_list.
  - split; [done|]. intros Hcur. exfalso.
    assert (forallb (fun entry => bool_decide (entry.2 = CurrentStatus))
              (map_to_list (statuses f)) = true) as Ht; [|congruence].
    apply forallb_forall. intros [id s] Hin. simpl.
    apply (proj2 (bool_decide_eq_true _)), (Hcur id).
    by apply elem_of_map_to_list, list_elem_of_In.
Qed.

Lemma Completed_iff (f : fakeAggregator) :
  Completed f = true
  <-> forall id s, statuses f !! id = Some s -> s = CurrentStatus.
Proof.
  unfold Completed. rewrite bool_decide_eq_true. apply AggregateStatus_Current.
Qed.

Lemma newFakeAggregator_lookup (identifiers : list Object.ObjMetadata)
    (m : gmap Object.ObjMetadata Status) (id : Object.ObjMetadata) :
  fold_left (fun statuses id => <[id := UnknownStatus]> statuses) identifiers m !! id
  = if decide (id ∈ identifiers) then Some UnknownStatus else m !! id.
Proof.
  revert m. induction identifiers as [|i identifiers IH]; intros m; cbn [fold_left].
  - by rewrite decide_False by apply not_elem_of_nil.
  - rewrite IH. destruct (decide (id ∈ identifiers)) as [Hin|Hnin].
    + by rewrite decide_True by (by right).
    + destruct (decide (id = i)) as [->|Hne].
      * by rewrite lookup_insert_eq, decide_True by left.
      * rewrite lookup_insert_ne by done.
        rewrite decide_False; [done|]. by intros [?|?]%elem_of_cons.
Qed.

(** X23.  A new fake aggregator holds every identifier as [Unknown]: it
    is completed from the start exactly when it is made for no identifier
    at all. *)
Theorem newFakeAggregator_completed (identifiers : list Object.ObjMetadata) :
  (forall id,
     statuses (newFakeAggregator identifiers) !! id
     = if decide (id ∈ identifiers) then Some UnknownStatus else None)
  /\ (Completed (newFakeAggregator identifiers) = true <-> identifiers = []).
Proof.
  assert (forall id,
     statuses (newFakeAggregator identifiers) !! id
     = if decide (id ∈ identifiers) then Some UnknownStatus else None) as Hl.
  { intros id. unfold newFakeAggregator. simpl.
    by rewrite newFakeAggregator_lookup, lookup_empty. }
  split; [exact Hl|].
  rewrite Completed_iff. split.
  - intros Hcur. destruct identifiers as [|i l]; [done|].
    specialize (Hcur i UnknownStatus). rewrite Hl, decide_True in Hcur by left.
    by specialize (Hcur eq_refl).
  - intros -> id s. rewrite Hl. by rewrite decide_False by apply not_elem_of_nil.
Qed.

Lemma observeAll_lookup (observations : list ResourceStatus) (f : fakeAggregator)
    (id : Object.ObjMetadata) :
  statuses (observeAll f observations) !! id
  = match latest observations id with
    | Some s => Some s
    | None => statuses f !! id
    end.
Proof.
  unfold observeAll, latest.
  assert (forall obs x,
    fold_left (fun acc r => if decide (Identifier r = id) then Some (Status_ r) else acc)
      obs x
    = match fold_left
              (fun acc r => if decide (Identifier r = id) then Some (Status_ r) else acc)
              obs None with
      | Some s => Some s
      | None => x
      end) as Hfold.
  { induction obs as [|r obs IH]; intros x; simpl; [done|].
    destruct (decide (Identifier r = id)); [|apply IH].
    rewrite (IH (Some (Status_ r))). by destruct (fold_left _ obs None). }
  rewrite <- Hfold. clear Hfold.
  revert f. induction observations as [|r obs IH]; intros f; simpl; [done|].
  rewrite IH. f_equal. unfold ResourceStatus_. simpl.
  destruct (decide (Identifier r = id)) as [->|Hne].
  - by rewrite lookup_insert_eq.
  - by rewrite lookup_insert_ne.
Qed.

(** X24.  A fake aggregator made for a set of identifiers is completed
    after a sequence of observations exactly when every identifier of the
    set has been observed and the latest observation of every observed
    identifier, of the set or not, is [Current]. *)
Theorem observeAll_completed (identifiers : list Object.ObjMetadata)
    (observations : list ResourceStatus) :
  Completed (observeAll (newFakeAggregator identifiers) observations) = true
  <-> (forall id, id ∈ identifiers -> latest observations id = Some CurrentStatus)
      /\ (forall id s, latest observations id = Some s -> s = CurrentStatus).
Proof.
  rewrite Completed_iff.
  assert (forall id,
    statuses (observeAll (newFakeAggregator identifiers) observations) !! id
    = match latest observations id with
      | Some s => Some s
      | None => if decide (id ∈ identifiers) then Some UnknownStatus else None
      end) as Hl.
  { intros id. rewrite observeAll_lookup. unfold newFakeAggregator. simpl.
    by rewrite newFakeAggregator_lookup, lookup_empty. }
  split.
  - intros Hcur. split.
    + intros id Hin. specialize (Hcur id). rewrite Hl in Hcur.
      destruct (latest observations id) as [s|]; [by rewrite (Hcur s eq_refl)|].
      rewrite decide_True in Hcur by done. by specialize (Hcur _ eq_refl).
    + intros id s Hs. apply (Hcur id). by rewrite Hl, Hs.
  - intros [Hids Hobs] id s. rewrite Hl.
    destruct (latest observations id) as [s'|] eqn:Hlat.
    + intros [= <-]. by apply (Hobs id).
    + destruct (decide (id ∈ identifiers)) as [Hin|]; [|done].
      rewrite (Hids id Hin) in Hlat. done.
Qed.

End EngineFakesExtras.

(** ** The further properties on concrete runs *)

Section MoreScenarios.
Import Resource Errors Kstatus Taskrunner RunnerSpec Apply Fixtures MoreFixtures.

Lemma nothing_started_after_abort_witness :
  started (run (newResourceStatusCollector identifiers)
             (buildTaskQueue waitAndPrune applied identifiers)
             ([TaskMsg ok; WorkerSend None; TaskMsg ok]
              ++ CtxDone :: [TaskMsg ok; TaskMsg ok])).1
  = [applyTask; SendEventTask applyCompleted; waitTask]
  /\ forwarded (run (newResourceStatusCollector identifiers)
                  (buildTaskQueue waitAndPrune applied identifiers)
                  ([TaskMsg ok; WorkerSend None; TaskMsg ok]
                   ++ CtxDone :: [TaskMsg ok; TaskMsg ok])).1
     = []
  /\ (run (newResourceStatusCollector identifiers)
        (buildTaskQueue waitAndPrune applied identifiers)
        ([TaskMsg ok; WorkerSend None; TaskMsg ok]
         ++ CtxDone :: [TaskMsg ok; TaskMsg ok])).2 <> Panicked.
Proof.
  exact (nothing_started_after_abort
           (newResourceStatusCollector identifiers)
           (buildTaskQueue waitAndPrune applied identifiers)
           [TaskMsg ok; WorkerSend None; TaskMsg ok] [TaskMsg ok; TaskMsg ok] CtxDone
           [Start applyTask; ClearTimeout applyTask;
            Start (SendEventTask applyCompleted); TaskSend applyCompleted;
            ClearTimeout (SendEventTask applyCompleted); Start waitTask]
           waiting eq_refl (or_introl eq_refl)).
Defined.

Lemma run_benign_witness :
  (run (newResourceStatusCollector identifiers)
     (buildTaskQueue applyOnly applied identifiers)
     [TaskMsg ok; StatusRecv (Some (update fooId InProgressStatus));
      WorkerSend None; TaskMsg ok]).2 = Returned None
  /\ started (run (newResourceStatusCollector identifiers)
                (buildTaskQueue applyOnly applied identifiers)
                [TaskMsg ok; StatusRecv (Some (update fooId InProgressStatus));
                 WorkerSend None; TaskMsg ok]).1
     = buildTaskQueue applyOnly applied identifiers.
Proof.
  apply (proj1 (run_benign (newResourceStatusCollector identifiers)
                  (buildTaskQueue applyOnly applied identifiers)
                  [TaskMsg ok; StatusRecv (Some (update fooId InProgressStatus));
                   WorkerSend None; TaskMsg ok] eq_refl)).
  vm_compute. lia.
Defined.

Lemma task_error_stops_queue_witness :
  run (newResourceStatusCollector identifiers)
    (buildTaskQueue waitAndPrune applied identifiers)
    ([CtxDone] ++ TaskMsg (failed (Foreign "apply failed")) :: [TaskMsg ok])
  = ([Start applyTask] ++ [ClearTimeout applyTask],
     Returned (Some (Foreign "apply failed")))
  /\ started (run (newResourceStatusCollector identifiers)
                (buildTaskQueue waitAndPrune applied identifiers)
                ([CtxDone] ++ TaskMsg (failed (Foreign "apply failed"))
                   :: [TaskMsg ok])).1
     = take 1 (buildTaskQueue waitAndPrune applied identifiers).
Proof.
  exact (task_error_stops_queue (newResourceStatusCollector identifiers)
           (buildTaskQueue waitAndPrune applied identifiers)
           [CtxDone] [TaskMsg ok] (failed (Foreign "apply failed"))
           (Foreign "apply failed") [Start applyTask]
           {| currentTask := applyTask;
              taskQueue := [SendEventTask applyCompleted; waitTask;
                            SendEventTask statusCompleted; PruneTask applied;
                            SendEventTask pruneCompleted];
              abort := true; abortReason := None; doneCh := false;
              collector := newResourceStatusCollector identifiers |}
           eq_refl eq_refl).
Defined.

Lemma run_error_provenance_witness :
  (exists msg,
     In (TaskMsg msg) [StatusRecv (Some pollError); TaskMsg ok]
     /\ Err_ msg = Some (PollingFailed (Some (Foreign "connection refused"))))
  \/ (exists ev,
        In (StatusRecv (Some ev)) [StatusRecv (Some pollError); TaskMsg ok]
        /\ isErrorObservation ev = true
        /\ PollingFailed (Some (Foreign "connection refused"))
           = PollingFailed (Kstatus.Error ev)).
Proof.
  apply (run_error_provenance (newResourceStatusCollector identifiers)
           (buildTaskQueue waitAndPrune applied identifiers)
           [StatusRecv (Some pollError); TaskMsg ok]).
  reflexivity.
Defined.

Lemma run_never_panics_witness :
  (run (newResourceStatusCollector identifiers)
     (buildTaskQueue waitAndPrune applied identifiers)
     [StatusRecv (Some (update fooId CurrentStatus)); StatusRecv (Some pollError)]).2
  <> Panicked.
Proof.
  apply run_never_panics.
  intros ev [[= <-]|[[= <-]|[]]]; [right; discriminate|left; reflexivity].
Defined.

Lemma taskRunner_Run_task_errors_only_witness :
  exists msg,
    In (TaskMsg msg) [StatusRecv (Some pollError); TaskMsg (failed (Foreign "apply failed"))]
    /\ Err_ msg = Some (Foreign "apply failed").
Proof.
  apply (proj2 (proj2 (taskRunner_Run_task_errors_only [applyTask]
           [StatusRecv (Some pollError); TaskMsg (failed (Foreign "apply failed"))]))).
  reflexivity.
Defined.

Lemma validateNamespace_one_namespace_witness :
  validateNamespace [deployment; clusterRole; groupingTemplate] = true.
Proof.
  apply (proj1 (proj2 (validateNamespace_one_namespace
                         [deployment; clusterRole; groupingTemplate])) "default"%string).
  intros info [<-|[<-|[<-|[]]]]; [reflexivity|discriminate|reflexivity].
Defined.

Lemma validateNamespace_empty_namespace_witness :
  validateNamespace [unplaced; deployment] = validateNamespace [deployment]
  /\ validateNamespace [deployment; unplaced] = false.
Proof.
  apply (validateNamespace_empty_namespace unplaced deployment []);
    [reflexivity|reflexivity|reflexivity|discriminate].
Defined.

Lemma readAndPrepareObjects_success_witness :
  exists got groupingObject,
    List.filter (isGrouping (C := labelled)) [deployment; groupingTemplate] = [got]
    /\ CreateGroupingObj (Collaborators := labelled) got
         (List.filter (fun info => negb (isGrouping (C := labelled) info))
            [deployment; groupingTemplate])
       = Ok groupingObject
    /\ validateNamespace
         (sortResourceInfos (Collaborators := labelled)
            (List.filter (fun info => negb (isGrouping (C := labelled) info))
               [deployment; groupingTemplate])) = true
    /\ applied
       = groupingObject
         :: sortResourceInfos (Collaborators := labelled)
              (List.filter (fun info => negb (isGrouping (C := labelled) info))
                 [deployment; groupingTemplate]).
Proof.
  apply (proj1 (proj1 (readAndPrepareObjects_success (C := labelled)
                         [deployment; groupingTemplate] applied))).
  reflexivity.
Defined.

Lemma readAndPrepareObjects_differing_namespaces_witness :
  readAndPrepareObjects (C := labelled) (Ok [deployment; groupingTemplate; serviceOther])
  = Err (Errorf "objects have differing namespaces").
Proof.
  apply (readAndPrepareObjects_differing_namespaces (C := labelled)
           [deployment; groupingTemplate; serviceOther]
           groupingTemplate deployment serviceOther).
  - intros l. apply Permutation_refl.
  - reflexivity.
  - left. reflexivity.
  - right. right. left. reflexivity.
  - reflexivity.
  - reflexivity.
  - reflexivity.
  - reflexivity.
  - discriminate.
  - discriminate.
  - discriminate.
Defined.

Lemma Run_starts_apply_witness :
  started (Apply.Run (C := labelled) waitAndPrune (Ok [deployment; groupingTemplate])
             [CtxDone; StatusRecv (Some (update fooId CurrentStatus));
              StatusRecv (Some pollError); WorkerSend None])
  = [applyTask]
  /\ ~ In Close
         (Apply.Run (C := labelled) waitAndPrune (Ok [deployment; groupingTemplate])
            [CtxDone; StatusRecv (Some (update fooId CurrentStatus));
             StatusRecv (Some pollError); WorkerSend None]).
Proof.
  apply (proj2 (Run_starts_apply (C := labelled) waitAndPrune
                  (Ok [deployment; groupingTemplate]) applied
                  [CtxDone; StatusRecv (Some (update fooId CurrentStatus));
                   StatusRecv (Some pollError); WorkerSend None] eq_refl)).
  - reflexivity.
  - intros ev [[=]|[[= <-]|[[= <-]|[[=]|[]]]]];
      [right; discriminate|left; reflexivity].
Defined.

Lemma Initialize_success_witness :
  let a' := (Setup.Initialize (F := goodFactory) dryRunApplier ["dir"%string]).1 in
  Setup.aoDryRun (Setup.ApplyOptions_ a') = true
  /\ Setup.poDryRun (Setup.PruneOptions_ a') = true
  /\ Setup.aoPostProcessorFn (Setup.ApplyOptions_ a') = None
  /\ Setup.DryRun a' = true
  /\ exists config mapper c,
       Setup.ToRESTConfig (Factory := goodFactory) = Ok config
       /\ Setup.ToRESTMapper (Factory := goodFactory) = Ok mapper
       /\ Setup.clientNew (Factory := goodFactory) config mapper = Ok c
       /\ Setup.statusPoller a'
          = Some (Setup.NewStatusPoller (Factory := goodFactory) c mapper).
Proof.
  exact (Initialize_success (F := goodFactory) dryRunApplier
           (Setup.Initialize (F := goodFactory) dryRunApplier ["dir"%string]).1
           ["dir"%string] eq_refl).
Defined.

Lemma Initialize_failure_witness :
  let a' := (Setup.Initialize (F := noMapperFactory) dryRunApplier ["dir"%string]).1 in
  Setup.statusPoller a' = None /\ Setup.DryRun a' = true.
Proof.
  destruct (Initialize_failure (F := noMapperFactory) dryRunApplier
              (Setup.Initialize (F := noMapperFactory) dryRunApplier ["dir"%string]).1
              ["dir"%string]
              (WrapPrefix (WrapPrefix (Foreign "no mapper") "error getting RESTMapper")
                 "error creating resolver") eq_refl) as (Hp & Hd & _).
  split; [exact Hp|exact Hd].
Defined.

Lemma RunE_stops_at_first_error_witness :
  Forall2 (fun arg n => Command.runArg (W := twoResources) arg = Ok n)
    (take 2 ["base"; "overlay"; "missing"; "later"]%string) [2; 2]%nat
  /\ exists arg,
       ["base"; "overlay"; "missing"; "later"]%string !! 2%nat = Some arg
       /\ Command.runArg (W := twoResources) arg = Err (Foreign "no such directory").
Proof.
  exact (RunE_stops_at_first_error (W := twoResources)
           ["base"; "overlay"; "missing"; "later"]%string [2; 2]%nat
           (Some (Foreign "no such directory")) eq_refl).
Defined.


Lemma ReadStatus_without_script_witness :
  EngineFakes.ReadStatus scriptedReader podId = None.
Proof. apply ReadStatus_without_script. reflexivity. Defined.

Lemma ReadStatus_other_kind_witness :
  fst <$> EngineFakes.ReadStatus
            (EngineFakes.Build_fakeStatusReader
               (EngineFakes.resourceStatuses scriptedReader)
               (<[deploymentKind := EngineFakes.wrap64 (0 + 1)]> ∅)) barId
  = fst <$> EngineFakes.ReadStatus scriptedReader barId.
Proof.
  apply (ReadStatus_other_kind scriptedReader _ fooId barId
           {| Identifier := fooId; Status_ := InProgressStatus |}).
  - reflexivity.
  - discriminate.
Defined.

End MoreScenarios.
